(** * rubic-sdk: RPC batching, multicall reads and the cross-chain quote ranker

    A shallow embedding of
    - [Web3Public] (getBalance, getTokenBalance, getTokensBalances,
      multicallContractMethod, batchEstimatedGas, rpcBatchRequest,
      web3BatchRequest, multicall, getTransactionByHash,
      getTransactionGasFee, getGasPriceInETH, getGasFee),
    - [CrossChainManager] (calculateTrade, calculateBestTradeFromTokens,
      getProviderRatio, calculateTradeFromTokens), and
    - [getCrossChainContract] with the table of the cross-chain contracts,
    together with the JavaScript built-ins they rely on (Array.prototype.sort,
    findIndex, splice, Promise.all) and the part of bignumber.js they use.
    Part I holds the definitions, Part II the properties the specification
    claims, Part III further properties of the code. *)

From Stdlib Require Import ZArith QArith Lia String.
From Equations Require Import Equations.
From stdpp Require Import base list sorting strings.

Local Open Scope Z_scope.

(* ===================================================================== *)
(** * Part I. The embedding *)
(* ===================================================================== *)

(** ** Errors and results *)

(** The exceptions that can cross the functions below.  [RubicSdkError] and
    [RubicError] carry their message, as in the source, where the different
    failures of the manager are the same class with different messages;
    [NetworkError] is a request that fails, [LibraryError] what web3 throws. *)
Inductive JsError :=
  | RubicSdkError (message : string)
  | RubicError (message : string)
  | TimeoutError
  | NetworkError (message : string)
  | LibraryError (message : string).

(** A promise that has settled: resolved with a value or rejected. *)
Inductive Result (A : Type) :=
  | Ok (value : A)
  | Err (reason : JsError).
Arguments Ok {A} value.
Arguments Err {A} reason.

Definition isOk {A} (r : Result A) : bool :=
  match r with Ok _ => true | Err _ => false end.

(** ** JavaScript built-ins *)
Module JS.

(** [Array.prototype.sort(comparefn)] as an insertion sort: the elements are
    taken left to right and each one is moved left past the already placed
    elements for which [comparefn inserted placed < 0].  [placed] holds the
    sorted prefix last element first.  For a consistent comparison function
    this is the stable ascending sort the language prescribes; for an
    inconsistent one the language leaves the order to the engine, and the
    inserted element is the first argument, as in V8's binary insertion. *)
Fixpoint sortInsert {A} (comparefn : A → A → Z) (x : A) (placed : list A)
  : list A :=
  match placed with
  | [] => [x]
  | y :: placed' =>
      if comparefn x y <? 0 then y :: sortInsert comparefn x placed'
      else x :: placed
  end.

Definition Array_sort {A} (comparefn : A → A → Z) (l : list A) : list A :=
  reverse (fold_left (λ placed x, sortInsert comparefn x placed) l []).

(** [findIndex]: [None] stands for the source's -1. *)
Definition findIndex {A} (p : A → bool) (l : list A) : option nat :=
  fst <$> list_find (λ x, Is_true (p x)) l.

(** [l.splice(start, 1)]: the array after the removal. *)
Definition splice_remove {A} (start : nat) (l : list A) : list A :=
  delete start l.

(** [l.splice(start, 0, item)]: the array after the insertion; a start past
    the end appends. *)
Definition splice_insert {A} (start : nat) (item : A) (l : list A) : list A :=
  take start l ++ item :: drop start l.

(** Which of two promises in flight settles first. *)
Inductive Settles := FirstSettlesFirst | SecondSettlesFirst.

(** [Promise.all([p0, p1])]: the values in the order of the array whatever
    the order of completion; the first promise to reject, in time, rejects
    the whole. *)
Definition Promise_all2 {A B} (order : Settles) (p0 : Result A) (p1 : Result B)
  : Result (A * B) :=
  match p0, p1 with
  | Ok a, Ok b => Ok (a, b)
  | Err e, Ok _ => Err e
  | Ok _, Err e => Err e
  | Err e0, Err e1 =>
      match order with
      | FirstSettlesFirst => Err e0
      | SecondSettlesFirst => Err e1
      end
  end.

(** [x || d] on an optional number: undefined and 0 are falsy. *)
Definition orElse (x : option Z) (d : Z) : Z :=
  match x with
  | Some 0 | None => d
  | Some v => v
  end.

(** The values of promises that have all resolved. *)
Fixpoint resolvedValues {A} (promises : list (Result A)) : option (list A) :=
  match promises with
  | [] => Some []
  | Ok v :: promises' => cons v <$> resolvedValues promises'
  | Err _ :: _ => None
  end.

Definition rejectionOf {A} (promise : Result A) : option JsError :=
  match promise with
  | Ok _ => None
  | Err e => Some e
  end.

(** [Promise.all(promises)]: the values in the order of the array when all
    resolve; otherwise the rejection of the promise that rejects first in
    time, [settleOrder] listing the indices of the promises in the order in
    which they settle (a promise it leaves out settles after those it
    lists, in array order). *)
Definition Promise_all {A} (settleOrder : list nat) (promises : list (Result A))
  : Result (list A) :=
  match resolvedValues promises with
  | Some values => Ok values
  | None =>
      match omap (λ i, promises !! i ≫= rejectionOf) settleOrder
            ++ omap rejectionOf promises with
      | e :: _ => Err e
      | [] => Ok []
      end
  end.

End JS.

(** [a] may stand before [b] in an array sorted with [comparefn]. *)
Definition sortedBefore {A} (comparefn : A → A → Z) (a b : A) : Prop :=
  comparefn a b ≤ 0.

(** [comparefn] is a consistent comparison function on the values satisfying
    [P]: it orders them totally, up to ties. *)
Record Consistent {A} (comparefn : A → A → Z) (P : A → Prop) : Prop := {
  consistent_refl : ∀ x, P x → comparefn x x = 0;
  consistent_antisym : ∀ x y, P x → P y → comparefn x y < 0 → 0 < comparefn y x;
  consistent_flip : ∀ x y, P x → P y → 0 ≤ comparefn x y → comparefn y x ≤ 0;
  consistent_trans :
    ∀ x y z, P x → P y → P z →
      comparefn x y ≤ 0 → comparefn y z ≤ 0 → comparefn x z ≤ 0
}.

(** ** bignumber.js *)

(** The values of bignumber.js and the three operations of the ranker.
    [dividedBy] rounds to [DECIMAL_PLACES] with ROUND_HALF_UP, the library's
    defaults; [comparedTo] answers [None] (the library's null) when an operand
    is NaN.  The sign of zero is not modelled. *)
Module BigNumber.

Inductive t :=
  | NaN
  | Infinity (negative : bool)
  | Finite (q : Q).

Definition DECIMAL_PLACES : Z := 20.

Definition zero : t := Finite 0.

Definition isNegative (q : Q) : bool := Qnum q <? 0.

Definition isZero (q : Q) : bool := Qnum q =? 0.

Definition round_half_up (q : Q) : Q :=
  let scale := 10 ^ DECIMAL_PLACES in
  let d := Zpos (Qden q) in
  let m := (2 * Z.abs (Qnum q) * scale + d) / (2 * d) in
  Qmake (Z.sgn (Qnum q) * m) (Z.to_pos scale).

Definition plus (x y : t) : t :=
  match x, y with
  | NaN, _ | _, NaN => NaN
  | Infinity s, Infinity s' => if Bool.eqb s s' then Infinity s else NaN
  | Infinity s, Finite _ | Finite _, Infinity s => Infinity s
  | Finite a, Finite b => Finite (Qred (a + b))
  end.

Definition dividedBy (x y : t) : t :=
  match x, y with
  | NaN, _ | _, NaN => NaN
  | Infinity _, Infinity _ => NaN
  | Infinity s, Finite b => Infinity (xorb s (isNegative b))
  | Finite _, Infinity _ => Finite 0
  | Finite a, Finite b =>
      if isZero b then (if isZero a then NaN else Infinity (isNegative a))
      else Finite (Qred (round_half_up (a / b)))
  end.

(** [new BigNumber(n)] for an integer [n], or for its decimal string. *)
Definition ofZ (n : Z) : t := Finite (inject_Z n).

(** [x.multipliedBy(y)]: exact. *)
Definition multipliedBy (x y : t) : t :=
  match x, y with
  | NaN, _ | _, NaN => NaN
  | Infinity s, Infinity s' => Infinity (xorb s s')
  | Infinity s, Finite b | Finite b, Infinity s =>
      if isZero b then NaN else Infinity (xorb s (isNegative b))
  | Finite a, Finite b => Finite (Qred (a * b))
  end.

(** [x.minus(y)]: exact. *)
Definition minus (x y : t) : t :=
  match x, y with
  | NaN, _ | _, NaN => NaN
  | Infinity s, Infinity s' => if Bool.eqb s s' then NaN else Infinity s
  | Infinity s, Finite _ => Infinity s
  | Finite _, Infinity s => Infinity (negb s)
  | Finite a, Finite b => Finite (Qred (a - b))
  end.

Definition comparedTo (x y : t) : option Z :=
  match x, y with
  | NaN, _ | _, NaN => None
  | Infinity s, Infinity s' =>
      Some (if s then (if s' then 0 else -1) else (if s' then 1 else 0))
  | Infinity s, Finite _ => Some (if s then -1 else 1)
  | Finite _, Infinity s => Some (if s then 1 else -1)
  | Finite a, Finite b =>
      Some (match (a ?= b)%Q with Lt => -1 | Eq => 0 | Gt => 1 end)
  end.

(** [x.lte(y)]: false when an operand is NaN. *)
Definition lte (x y : t) : bool :=
  match comparedTo x y with
  | Some c => c <=? 0
  | None => false
  end.

Definition isNaN (x : t) : bool :=
  match x with NaN => true | _ => false end.

(** A finite, strictly positive value (a usable price). *)
Definition isPositiveFinite (x : t) : bool :=
  match x with Finite q => 0 <? Qnum q | _ => false end.

(** A finite value that is not negative (an amount). *)
Definition isNonNegativeFinite (x : t) : bool :=
  match x with Finite q => 0 <=? Qnum q | _ => false end.

End BigNumber.

(** What the sort does with a comparator's answer: null counts as 0. *)
Definition comparatorResult (v : option Z) : Z := default 0 v.

(** [(x, y) => x.comparedTo(y)] as the sort sees it. *)
Definition compareNumbers (x y : BigNumber.t) : Z :=
  comparatorResult (BigNumber.comparedTo x y).

(** ** Web3Public *)
Module Web3Public.

Record Call := { target : string; callData : string }.

Record MulticallResponse := { success : bool; returnData : string }.

Record ContractMulticallResponse (Output : Type) :=
  { cm_success : bool; output : option Output }.
Arguments cm_success {Output} _.
Arguments output {Output} _.

Record AbiItem := { name : string; outputs : option (list string) }.

Record BatchCall :=
  { contractMethod : string; params : list string; value : option string }.

(** The object sent as the single parameter of an eth_estimateGas call. *)
Record RpcParams :=
  { from : string; to : string; data : string; rpc_value : option string }.

Record RpcCallData := { rpcMethod : string; rpc_params : RpcParams }.

Record RpcRequest :=
  { req_id : Z; jsonrpc : string; method : string; req_params : list RpcParams }.

(** One entry of a batch response: [error] is present when the node reports
    a failure of that call; an absent [result] is [None]. *)
Record RpcResponse (T : Type) :=
  { id : Z; result : option T; error : option string }.
Arguments id {T} _.
Arguments result {T} _.
Arguments error {T} _.

(** The HTTP client: a post of a batch either fails as a whole or answers
    with the entries the node sent, in the order it sent them. *)
Record HttpClient (T : Type) :=
  { post : string → list RpcRequest → Result (list (RpcResponse T)) }.
Arguments post {T} _ _ _.

(** What the web3 instance, the node behind it and the libraries answer.
    [call_rejects] is the failure of the web3 request carrying a contract
    call, when it fails; [eth_call] is what one sub-call yields on chain. *)
Record Web3 := {
  host : string;
  isNativeAddress : string → bool;
  encodeABI : string → list string → string;
  toBigNumber : string → BigNumber.t;
  toString16 : string → string;
  eth_call : Call → MulticallResponse;
  call_rejects : option JsError;
  eth_getBalance : string → Result string
}.

(** A request issued to the node by getTokensBalances. *)
Inductive Request :=
  | GetBalanceRequest (address : string)
  | MulticallRequest (calls : list Call).

(** The outcome of a run of getTokensBalances: the caller's array as the
    run leaves it, the requests issued in order, and the settled promise. *)
Record Run (A : Type) :=
  { array_after : list string; issued : list Request; settled : Result A }.
Arguments array_after {A} _.
Arguments issued {A} _.
Arguments settled {A} _.

(** Modelled from the spec: the multicall contract is not part of the
    sources; tryAggregate(requireSuccess=false, calls) answers with
    (success, returnData)[], result length and order equal to input, one
    reverting sub-call never reverting the others. *)
Definition tryAggregate (w : Web3) (calls : list Call) : list MulticallResponse :=
  eth_call w <$> calls.

Definition multicall (w : Web3) (calls : list Call) : Result (list MulticallResponse) :=
  match call_rejects w with
  | Some e => Err e
  | None => Ok (tryAggregate w calls)
  end.

(** [getBalance(address)] without a token address: the native balance. *)
Definition getBalance (w : Web3) (address : string) : Result BigNumber.t :=
  match eth_getBalance w address with
  | Ok balance => Ok (toBigNumber w balance)
  | Err e => Err e
  end.

(** The balanceOf read of [address] on the token at [tokenAddress]. *)
Definition balanceOfCall (w : Web3) (address tokenAddress : string) : Call :=
  {| target := tokenAddress; callData := encodeABI w "balanceOf" [address] |}.

Definition tokensBalancesOf (w : Web3) (results0 : list MulticallResponse)
  : list BigNumber.t :=
  (λ r, if success r then toBigNumber w (returnData r) else BigNumber.zero)
    <$> results0.

(** The contract object built on [tokensAddresses[0]] serves only to encode
    balanceOf(address); [order] is the order in which the two requests settle,
    [multicall] being the first promise of the array. *)
Definition getTokensBalances (w : Web3) (order : JS.Settles)
    (address : string) (tokensAddresses : list string)
  : Run (list BigNumber.t) :=
  let indexOfNativeCoin := JS.findIndex (isNativeAddress w) tokensAddresses in
  let tokensAddresses' :=
    match indexOfNativeCoin with
    | Some i => JS.splice_remove i tokensAddresses
    | None => tokensAddresses
    end in
  let calls := balanceOfCall w address <$> tokensAddresses' in
  match indexOfNativeCoin with
  | Some i =>
      {| array_after := tokensAddresses';
         issued := [GetBalanceRequest address; MulticallRequest calls];
         settled :=
           match JS.Promise_all2 order (multicall w calls) (getBalance w address) with
           | Ok (results0, results1) =>
               Ok (JS.splice_insert i results1 (tokensBalancesOf w results0))
           | Err e => Err e
           end |}
  | None =>
      {| array_after := tokensAddresses';
         issued := [MulticallRequest calls];
         settled :=
           match multicall w calls with
           | Ok results0 => Ok (tokensBalancesOf w results0)
           | Err e => Err e
           end |}
  end.

(** [outputs.map(f)] for an [f] that may throw: the first throw aborts. *)
Fixpoint mapThrowing {A B} (f : A → Result B) (l : list A) : Result (list B) :=
  match l with
  | [] => Ok []
  | x :: l' =>
      match f x with
      | Err e => Err e
      | Ok y =>
          match mapThrowing f l' with
          | Err e => Err e
          | Ok ys => Ok (y :: ys)
          end
      end
  end.

(** One output of the multicall turned into the caller's entry;
    [decodeParameters] is web3's decoder, which throws on return data that
    does not fit the output schema. *)
Definition decodeOutput {Output} (decodeParameters : list string → string → option Output)
    (methodOutputAbi : list string) (o : MulticallResponse)
  : Result (ContractMulticallResponse Output) :=
  if success o then
    match decodeParameters methodOutputAbi (returnData o) with
    | Some v => Ok {| cm_success := true; output := Some v |}
    | None => Err (LibraryError "decodeParameters")
    end
  else Ok {| cm_success := false; output := None |}.

(** The read of [methodName] on [contractAddress] with [callArguments]. *)
Definition methodCall (w : Web3) (contractAddress methodName : string)
    (callArguments : list string) : Call :=
  {| callData := encodeABI w methodName callArguments; target := contractAddress |}.

(** [contractAbi.find(funcSignature => funcSignature.name === methodName)?.outputs] *)
Definition methodOutputAbiOf (contractAbi : list AbiItem) (methodName : string)
  : option (list string) :=
  find (λ funcSignature, String.eqb (name funcSignature) methodName) contractAbi
    ≫= outputs.

Definition multicallContractMethod {Output} (w : Web3)
    (decodeParameters : list string → string → option Output)
    (contractAddress : string) (contractAbi : list AbiItem)
    (methodName : string) (methodCallsArguments : list (list string))
  : Result (list (ContractMulticallResponse Output)) :=
  let calls := methodCall w contractAddress methodName <$> methodCallsArguments in
  match multicall w calls with
  | Err e => Err e
  | Ok outputs_ =>
      match methodOutputAbiOf contractAbi methodName with
      | None =>
          Err (RubicError (String.append "Contract method "
                 (String.append methodName " does not exist.")))
      | Some methodOutputAbi =>
          mapThrowing (decodeOutput decodeParameters methodOutputAbi) outputs_
      end
  end.

(** [item.error ? null : item.result] *)
Definition responseValue {T} (item : RpcResponse T) : option T :=
  match error item with
  | Some _ => None
  | None => result item
  end.

(** The batch sent for [rpcCallsData] when Date.now() returns [seed]. *)
Definition batchOf (seed : Z) (rpcCallsData : list RpcCallData) : list RpcRequest :=
  imap (λ index callData,
          {| req_id := seed + Z.of_nat index;
             jsonrpc := "2.0";
             method := rpcMethod callData;
             req_params := [rpc_params callData] |})
       rpcCallsData.

(** [(a, b) => a.id - b.id] *)
Definition byId {T} (a b : RpcResponse T) : Z := id a - id b.

Definition rpcBatchRequest {T} (httpClient : HttpClient T) (w : Web3) (seed : Z)
    (rpcCallsData : list RpcCallData)
  : Result (list (option T)) :=
  let batch := batchOf seed rpcCallsData in
  match post httpClient (host w) batch with
  | Err e => Err e
  | Ok response =>
      Ok (responseValue <$> JS.Array_sort byId response)
  end.

(** [value ? new BigNumber(value) : null] on a string or null. *)
Definition estimatedGasOf (w : Web3) (v : option string) : option BigNumber.t :=
  match v with
  | Some s => if String.eqb s "" then None else Some (toBigNumber w s)
  | None => None
  end.

(** The calls batchEstimatedGas submits for [callsData]. *)
Definition estimateGasCallsData (w : Web3) (contractAddress fromAddress : string)
    (callsData : list BatchCall) : list RpcCallData :=
  let dataList :=
    (λ callData, encodeABI w (contractMethod callData) (params callData))
      <$> callsData in
  imap (λ index data_,
          {| rpcMethod := "eth_estimateGas";
             rpc_params :=
               {| from := fromAddress;
                  to := contractAddress;
                  data := data_;
                  rpc_value :=
                    (λ v, String.append "0x" (toString16 w v))
                      <$> (callsData !! index ≫= value) |} |})
       dataList.

Definition batchEstimatedGas (httpClient : HttpClient string) (w : Web3) (seed : Z)
    (contractAddress fromAddress : string) (callsData : list BatchCall)
  : Result (list (option BigNumber.t)) :=
  let rpcCallsData := estimateGasCallsData w contractAddress fromAddress callsData in
  match rpcBatchRequest httpClient w seed rpcCallsData with
  | Ok result_ => Ok (estimatedGasOf w <$> result_)
  | Err e => Ok ((λ _, None) <$> callsData)
  end.



(** *** Transactions and gas *)

(** A transaction and a receipt, as far as the gas reads look at them:
    [gasPrice] is the integer the decimal string of web3 denotes. *)
Record Transaction := { tx_hash : string; gasPrice : Z }.

Record TransactionReceipt := { gasUsed : Z }.

(** What web3.eth answers to the transaction and gas reads.
    [eth_getTransaction hash n] is the answer to the lookup of [hash] that
    is made after [n] earlier ones; [None] is the null of a transaction
    the node does not know (yet). *)
Record Eth := {
  eth_getTransaction : string → nat → Result (option Transaction);
  eth_getTransactionReceipt : string → Result (option TransactionReceipt);
  eth_getGasPrice : Result Z
}.

(** A run of getTransactionByHash: the number of lookups made, the delays
    of the timers set between them, and what the promise settles with. *)
Record Polling := {
  lookups : nat;
  waits : list Z;
  outcome : Result (option Transaction)
}.

(** [return null] before any lookup. *)
Definition givenUp : Polling :=
  {| lookups := 0; waits := []; outcome := Ok None |}.

(** One lookup whose answer settles the promise. *)
Definition settledAtOnce (answer : Result (option Transaction)) : Polling :=
  {| lookups := 1; waits := []; outcome := answer |}.

(** One lookup answered with null, a timer of [timeoutMs], then [next]. *)
Definition afterWait (timeoutMs : Z) (next : Polling) : Polling :=
  {| lookups := S (lookups next);
     waits := timeoutMs :: waits next;
     outcome := outcome next |}.

(** The attempts a call can still make: the measure of the recursion. *)
Definition attemptsLeft (attempt attemptsLimit : option Z) : nat :=
  match attemptsLimit with
  | Some 0 | None => Z.to_nat (10 - JS.orElse attempt 0)
  | Some _ => S (Z.to_nat (9 - JS.orElse attempt 0))
  end.

(** [getTransactionByHash(hash, attempt?, attemptsLimit?, delay?)], where
    [k] lookups of [hash] have been made before.  The recursive call is the
    source's [this.getTransactionByHash(hash, attempt + 1)]: it passes on
    neither the limit nor the delay. *)
Equations? getTransactionByHash (eth : Eth) (hash : string)
    (attempt attemptsLimit delay : option Z) (k : nat) : Polling
  by wf (attemptsLeft attempt attemptsLimit) lt :=
getTransactionByHash eth hash attempt attemptsLimit delay k
  with Equations.Prop.Logic.inspect
         (JS.orElse attemptsLimit 10 <=? JS.orElse attempt 0) := {
  | exist _ true _ => givenUp
  | exist _ false Hlimit with eth_getTransaction eth hash k := {
    | Ok None =>
        afterWait (JS.orElse delay 500)
          (getTransactionByHash eth hash (Some (JS.orElse attempt 0 + 1))
             None None (S k))
    | answer => settledAtOnce answer } }.
Proof.
  apply Z.leb_gt in Hlimit. unfold attemptsLeft.
  set (a := JS.orElse attempt 0) in *.
  assert (JS.orElse (Some (a + 1)) 0 = a + 1) as ->.
  { unfold JS.orElse. by destruct (a + 1). }
  destruct attemptsLimit as [[|l|l]|]; cbn [JS.orElse] in Hlimit |- *; lia.
Qed.

(** [getTransactionGasFee(hash)]: the receipt is read after the polling has
    settled, whatever it settled with. *)
Definition getTransactionGasFee (eth : Eth) (hash : string)
  : Result (option BigNumber.t) :=
  match outcome (getTransactionByHash eth hash None None None 0) with
  | Err e => Err e
  | Ok transaction =>
      match eth_getTransactionReceipt eth hash with
      | Err e => Err e
      | Ok receipt =>
          match transaction, receipt with
          | Some transaction, Some receipt =>
              let gasPrice := BigNumber.ofZ (gasPrice transaction) in
              let gasLimit := BigNumber.ofZ (gasUsed receipt) in
              Ok (Some (BigNumber.multipliedBy gasPrice gasLimit))
          | _, _ => Ok None
          end
      end
  end.

Definition getGasPrice (eth : Eth) : Result Z := eth_getGasPrice eth.

(** [new BigNumber(gasPrice).div(10 ** 18)] *)
Definition getGasPriceInETH (eth : Eth) : Result BigNumber.t :=
  match eth_getGasPrice eth with
  | Err e => Err e
  | Ok gasPrice =>
      Ok (BigNumber.dividedBy (BigNumber.ofZ gasPrice) (BigNumber.ofZ (10 ^ 18)))
  end.

Definition getGasFee (eth : Eth) (gasLimit etherPrice : BigNumber.t)
  : Result BigNumber.t :=
  match getGasPriceInETH eth with
  | Err e => Err e
  | Ok gasPrice =>
      Ok (BigNumber.multipliedBy (BigNumber.multipliedBy gasPrice gasLimit)
                                 etherPrice)
  end.

(** *** web3BatchRequest *)

(** The parameters object of a call of a web3 batch. *)
Definition CallParams : Type := list (string * string).

(** [web3BatchRequest(calls, callsParams)]: a call is what its request
    answers to the parameters it is given (error or result); a call without
    parameters of its own gets the empty object, the spread of undefined. *)
Definition web3BatchRequest {T} (settleOrder : list nat)
    (calls : list (CallParams → Result T)) (callsParams : list CallParams)
  : Result (list T) :=
  let promises :=
    imap (λ index call, call (default [] (callsParams !! index))) calls in
  JS.Promise_all settleOrder promises.

End Web3Public.

(** ** CrossChainManager *)
Module CrossChainManager.

Inductive BlockchainName :=
  | ETHEREUM | BINANCE_SMART_CHAIN | POLYGON | AVALANCHE | MOONRIVER | FANTOM
  | HARMONY | ARBITRUM | AURORA | TELOS | SOLANA | NEAR | OPTIMISM | CRONOS
  | OKE_X_CHAIN | GNOSIS | FUSE | MOONBEAM | CELO.

#[global] Instance BlockchainName_eq_dec : EqDecision BlockchainName.
Proof. solve_decision. Defined.

Inductive CrossChainTradeType := RUBIC | CELER | SYMBIOSIS | LIFI | DEBRIDGE.

#[global] Instance CrossChainTradeType_eq_dec : EqDecision CrossChainTradeType.
Proof. solve_decision. Defined.

(** The argument type [Token | { address, blockchain }] of calculateTrade. *)
Inductive InputToken :=
  | TokenInstance (address : string) (blockchain : BlockchainName)
  | TokenStruct (address : string) (blockchain : BlockchainName).

Definition instanceofToken (t : InputToken) : bool :=
  match t with TokenInstance _ _ => true | TokenStruct _ _ => false end.

Definition inputAddress (t : InputToken) : string :=
  match t with TokenInstance a _ | TokenStruct a _ => a end.

Definition inputBlockchain (t : InputToken) : BlockchainName :=
  match t with TokenInstance _ b | TokenStruct _ b => b end.

Record PriceToken :=
  { address : string; blockchain : BlockchainName; price : BigNumber.t }.

Record PriceTokenAmount := { token : PriceToken; tokenAmount : BigNumber.t }.

(** The trade classes the manager tells apart with instanceof. *)
Inductive CrossChainTrade :=
  | RubicCrossChainTrade (from to : PriceTokenAmount)
  | CelerCrossChainTrade (from to cryptoFeeToken : PriceTokenAmount)
  | SymbiosisCrossChainTrade (from to : PriceTokenAmount)
  | LifiCrossChainTrade (from to : PriceTokenAmount).

Definition trade_from (t : CrossChainTrade) : PriceTokenAmount :=
  match t with
  | RubicCrossChainTrade f _ | CelerCrossChainTrade f _ _
  | SymbiosisCrossChainTrade f _ | LifiCrossChainTrade f _ => f
  end.

Definition trade_to (t : CrossChainTrade) : PriceTokenAmount :=
  match t with
  | RubicCrossChainTrade _ o | CelerCrossChainTrade _ o _
  | SymbiosisCrossChainTrade _ o | LifiCrossChainTrade _ o => o
  end.

Definition instanceofLifi (t : option CrossChainTrade) : bool :=
  match t with Some (LifiCrossChainTrade _ _) => true | _ => false end.

(** What a provider resolves with: a wrapped trade without its type. *)
Record ProviderWrappedTrade :=
  { p_trade : option CrossChainTrade; p_error : option JsError }.

Record WrappedCrossChainTrade := {
  trade : option CrossChainTrade;
  tradeType : CrossChainTradeType;
  error : option JsError
}.

(** How [pTimeout(provider.calculate(from, to, options), timeout)] settles. *)
Inductive CalculationOutcome :=
  | Resolved (wrappedTrade : option ProviderWrappedTrade)
  | Rejected (e : JsError)
  | TimedOut.

Record SwapManagerCrossChainCalculationOptions := {
  disabledProviders : option (list CrossChainTradeType);
  timeout : option Z
}.

Record RequiredSwapManagerCalculationOptions := {
  req_disabledProviders : list CrossChainTradeType;
  req_timeout : Z
}.

Definition defaultCalculationTimeout : Z := 20000.

Definition getFullOptions (options : option SwapManagerCrossChainCalculationOptions)
  : RequiredSwapManagerCalculationOptions :=
  {| req_disabledProviders := default [] (options ≫= disabledProviders);
     req_timeout := default defaultCalculationTimeout (options ≫= timeout) |}.

(** Full options passed where options are expected. *)
Definition asOptions (o : RequiredSwapManagerCalculationOptions)
  : SwapManagerCrossChainCalculationOptions :=
  {| disabledProviders := Some (req_disabledProviders o);
     timeout := Some (req_timeout o) |}.

(** The collaborators of the manager that are not part of the sources. *)
Record Env := {
  getPriceTokensFromInputTokens :
    InputToken → string → InputToken → Result (PriceTokenAmount * PriceToken);
  Celer_isSupportedBlockchain : BlockchainName → bool;
  settledCalculation :
    CrossChainTradeType → PriceTokenAmount → PriceToken → Z → CalculationOutcome
}.

(** The calls that leave the manager, in the order they are made. *)
Inductive Event :=
  | GetPriceTokensCall (fromToken : InputToken) (fromAmount : string)
                       (toToken : InputToken)
  | CalculateCall (type : CrossChainTradeType).

(** A computation that makes calls and then returns or throws. *)
Definition M (A : Type) : Type := list Event * Result A.

Definition ret {A} (x : A) : M A := ([], Ok x).

Definition throw {A} (e : JsError) : M A := ([], Err e).

Definition emit (evs : list Event) : M unit := (evs, Ok tt).

Definition bind {A B} (m : M A) (k : A → M B) : M B :=
  match m with
  | (evs, Ok x) => let '(evs', r) := k x in (evs ++ evs', r)
  | (evs, Err e) => (evs, Err e)
  end.

Definition liftResult {A} (r : Result A) : M A := ([], r).

#[local] Notation "x <~ m ;; k" := (bind m (λ x, k))
  (at level 100, m at next level, right associativity).

(** The keys of [tradeProviders] as Object.entries lists them: the order in
    which the provider classes are registered. *)
Definition tradeProviders : list CrossChainTradeType :=
  [RUBIC; CELER; SYMBIOSIS; LIFI].

Definition includes (l : list CrossChainTradeType) (x : CrossChainTradeType) : bool :=
  bool_decide (x ∈ l).

(** The filter of calculateTradeFromTokens. *)
Definition providerSelected (env : Env) (disabled : list CrossChainTradeType)
    (from : PriceTokenAmount) (to : PriceToken) (type : CrossChainTradeType)
  : bool :=
  if includes disabled type then false
  else if bool_decide (type = RUBIC)
          && Celer_isSupportedBlockchain env (blockchain (token from))
          && Celer_isSupportedBlockchain env (blockchain to)
  then false
  else true.

(** The body of the mapped async function, once settled. *)
Definition calculationResult (type : CrossChainTradeType) (o : CalculationOutcome)
  : option WrappedCrossChainTrade :=
  match o with
  | Resolved (Some wrappedTrade) =>
      Some {| trade := p_trade wrappedTrade;
              tradeType := type;
              error := p_error wrappedTrade |}
  | Resolved None => None
  | Rejected _ => None
  | TimedOut => None
  end.

Definition noProviders : JsError :=
  RubicSdkError "There are no providers for trade".

Definition noSuccess : JsError :=
  RubicSdkError "No success providers calculation for the trade".

Definition sameBlockchain : JsError :=
  RubicSdkError "Blockchains of from and to tokens must be different.".

(** The providers that pass the filter, in registry order. *)
Definition selectedProviders (env : Env)
    (options : RequiredSwapManagerCalculationOptions)
    (from : PriceTokenAmount) (to : PriceToken) : list CrossChainTradeType :=
  List.filter (providerSelected env (req_disabledProviders options) from to)
              tradeProviders.

(** [(await Promise.all(calculationPromises)).filter(notNull)] *)
Definition calculationResults (env : Env)
    (options : RequiredSwapManagerCalculationOptions)
    (from : PriceTokenAmount) (to : PriceToken)
    (providers : list CrossChainTradeType) : list WrappedCrossChainTrade :=
  omap (λ type,
          calculationResult type
            (settledCalculation env type from to (req_timeout options)))
       providers.

Definition calculateTradeFromTokens (env : Env) (from : PriceTokenAmount)
    (to : PriceToken) (options : RequiredSwapManagerCalculationOptions)
  : M (list WrappedCrossChainTrade) :=
  let providers := selectedProviders env options from to in
  match providers with
  | [] => throw noProviders
  | _ :: _ =>
      _ <~ emit (CalculateCall <$> providers) ;;
      let results := calculationResults env options from to providers in
      match results with
      | [] => throw noSuccess
      | _ :: _ => ret results
      end
  end.

(** [fromTokenPrice] is a BigNumber object here, hence truthy: only a
    missing trade gives Infinity. *)
Definition getProviderRatio (trade : option CrossChainTrade)
    (fromTokenPrice : BigNumber.t) : BigNumber.t :=
  match trade with
  | None => BigNumber.Infinity false
  | Some (CelerCrossChainTrade _ to cryptoFeeToken) =>
      BigNumber.dividedBy
        (BigNumber.plus fromTokenPrice (price (token cryptoFeeToken)))
        (tokenAmount to)
  | Some t => BigNumber.dividedBy fromTokenPrice (tokenAmount (trade_to t))
  end.

(** The price of the input token carried by the first Lifi trade, if any. *)
Definition fromTokenPriceOf (wrappedTrades : list WrappedCrossChainTrade)
  : option BigNumber.t :=
  t ← (find (λ wrappedTrade, instanceofLifi (trade wrappedTrade)) wrappedTrades
         ≫= trade);
  Some (price (token (trade_from t))).


(** [tradeA => (tradeA?.trade ? -1 : 1)] *)
Definition fallbackComparator (tradeA _ : WrappedCrossChainTrade) : Z :=
  match trade tradeA with Some _ => -1 | None => 1 end.

Definition ratioComparator (fromTokenPrice : BigNumber.t)
    (firstTrade secondTrade : WrappedCrossChainTrade) : Z :=
  let firstTradeRatio := getProviderRatio (trade firstTrade) fromTokenPrice in
  let secondTradeRatio := getProviderRatio (trade secondTrade) fromTokenPrice in
  compareNumbers firstTradeRatio secondTradeRatio.

(** A quote whose amounts are amounts: the output amount, and for a Celer
    trade the price of the fee token, are finite and not negative. *)
Definition wellFormedQuote (wrappedTrade : WrappedCrossChainTrade) : bool :=
  match trade wrappedTrade with
  | None => true
  | Some (CelerCrossChainTrade _ to cryptoFeeToken) =>
      BigNumber.isNonNegativeFinite (tokenAmount to)
      && BigNumber.isNonNegativeFinite (price (token cryptoFeeToken))
  | Some t => BigNumber.isNonNegativeFinite (tokenAmount (trade_to t))
  end.

(** The sort of calculateBestTradeFromTokens. *)
Definition rank (wrappedTrades : list WrappedCrossChainTrade)
  : list WrappedCrossChainTrade :=
  match fromTokenPriceOf wrappedTrades with
  | None => JS.Array_sort fallbackComparator wrappedTrades
  | Some fromTokenPrice =>
      JS.Array_sort (ratioComparator fromTokenPrice) wrappedTrades
  end.

Definition calculateBestTradeFromTokens (env : Env) (from : PriceTokenAmount)
    (to : PriceToken) (options : RequiredSwapManagerCalculationOptions)
  : M (list WrappedCrossChainTrade) :=
  wrappedTrades <~
    calculateTradeFromTokens env from to (getFullOptions (Some (asOptions options))) ;;
  ret (rank wrappedTrades).

Definition calculateTrade (env : Env) (fromToken : InputToken)
    (fromAmount : string) (toToken : InputToken)
    (options : option SwapManagerCrossChainCalculationOptions)
  : M (list WrappedCrossChainTrade) :=
  if instanceofToken toToken
     && bool_decide (inputBlockchain fromToken = inputBlockchain toToken)
  then throw sameBlockchain
  else
    _ <~ emit [GetPriceTokensCall fromToken fromAmount toToken] ;;
    tokens <~
      liftResult (getPriceTokensFromInputTokens env fromToken fromAmount toToken) ;;
    calculateBestTradeFromTokens env tokens.1 tokens.2 (getFullOptions options).

End CrossChainManager.

(** ** The cross-chain contracts *)
Module CrossChainContracts.

(** The keys of [crossChainContractsData]. *)
Inductive CrossChainSupportedBlockchain :=
  | ETHEREUM | BINANCE_SMART_CHAIN | POLYGON | AVALANCHE | MOONRIVER | FANTOM.

#[global] Instance CrossChainSupportedBlockchain_eq_dec :
  EqDecision CrossChainSupportedBlockchain.
Proof. solve_decision. Defined.

(** The provider classes the table names. *)
Inductive DexProviderClass :=
  | UniSwapV2Provider | PancakeSwapProvider | QuickSwapProvider
  | PangolinProvider | JoeProvider | SolarbeamProvider | SpookySwapProvider.

Record ProviderData :=
  { ProviderClass : DexProviderClass; methodSuffix : string }.

Record ContractEntry :=
  { address : string; providersData : list ProviderData }.

Definition crossChainContractsData (blockchain : CrossChainSupportedBlockchain)
  : ContractEntry :=
  match blockchain with
  | ETHEREUM =>
      {| address := "0xb9a94be803eC1197A234406eF5c0113f503d3178";
         providersData :=
           [ {| ProviderClass := UniSwapV2Provider; methodSuffix := "" |} ] |}
  | BINANCE_SMART_CHAIN =>
      {| address := "0x6b8904739059afbaa91311aab99187f5885c6dc0";
         providersData :=
           [ {| ProviderClass := PancakeSwapProvider; methodSuffix := "" |} ] |}
  | POLYGON =>
      {| address := "0xb02c0b6ba0e7719de2d44e613fc4ad01ac2f60ad";
         providersData :=
           [ {| ProviderClass := QuickSwapProvider; methodSuffix := "" |} ] |}
  | AVALANCHE =>
      {| address := "0x3df5f6165fe8429744F9488a9C18259E9a93B4C0";
         providersData :=
           [ {| ProviderClass := PangolinProvider; methodSuffix := "" |};
             {| ProviderClass := JoeProvider; methodSuffix := "1" |} ] |}
  | MOONRIVER =>
      {| address := "0x3645Dca27D9f5Cf5ee0d6f52EE53ae366e4ceAc2";
         providersData :=
           [ {| ProviderClass := SolarbeamProvider; methodSuffix := "" |} ] |}
  | FANTOM =>
      {| address := "0xeDfA29ca1BdbFaCBBDc6AAda385c983020015177";
         providersData :=
           [ {| ProviderClass := SpookySwapProvider; methodSuffix := "" |} ] |}
  end.

(** An object made with [new]: [objectId] tells it from every other. *)
Record ProviderObject :=
  { instanceOf : DexProviderClass; providerId : nat }.

Record ContractProvider :=
  { provider : ProviderObject; cp_methodSuffix : string }.

Record ContractData := {
  contractId : nat;
  cd_blockchain : CrossChainSupportedBlockchain;
  cd_address : string;
  cd_providersData : list ContractProvider
}.

(** The module-level record [crossChainContracts] (null is [None]) and the
    number of objects made so far. *)
Record Store := {
  crossChainContracts : CrossChainSupportedBlockchain → option ContractData;
  objectsMade : nat
}.

(** The store when the module has been loaded: null for every blockchain. *)
Definition initialStore : Store :=
  {| crossChainContracts := λ _, None; objectsMade := 0 |}.

Definition getCrossChainContract (store : Store)
    (blockchain : CrossChainSupportedBlockchain) : Store * ContractData :=
  match crossChainContracts store blockchain with
  | Some storedContract => (store, storedContract)
  | None =>
      let contract := crossChainContractsData blockchain in
      let providers :=
        imap (λ index providerData,
                {| provider := {| instanceOf := ProviderClass providerData;
                                  providerId := objectsMade store + index |};
                   cp_methodSuffix := methodSuffix providerData |})
             (providersData contract) in
      let made :=
        {| contractId := objectsMade store + length providers;
           cd_blockchain := blockchain;
           cd_address := address contract;
           cd_providersData := providers |} in
      ({| crossChainContracts :=
            λ b, if decide (b = blockchain) then Some made
                 else crossChainContracts store b;
          objectsMade := S (objectsMade store + length providers) |},
       made)
  end.

(** Calls of getCrossChainContract one after the other. *)
Fixpoint successiveCalls (store : Store)
    (blockchains : list CrossChainSupportedBlockchain)
  : Store * list ContractData :=
  match blockchains with
  | [] => (store, [])
  | blockchain :: rest =>
      let '(store', contract) := getCrossChainContract store blockchain in
      let '(store'', contracts) := successiveCalls store' rest in
      (store'', contract :: contracts)
  end.

(** The identities of the objects a contract data is made of: its own and
    those of its providers. *)
Definition objectIds (contract : ContractData) : list nat :=
  contractId contract
  :: ((λ p, providerId (provider p)) <$> cd_providersData contract).

(** What holds of the store between calls: a stored contract is the one of
    its blockchain, made of objects of its own that exist. *)
Record storeInvariant (store : Store) : Prop := {
  stored_blockchain :
    ∀ b c, crossChainContracts store b = Some c → cd_blockchain c = b;
  stored_address :
    ∀ b c, crossChainContracts store b = Some c →
      cd_address c = address (crossChainContractsData b);
  stored_classes :
    ∀ b c, crossChainContracts store b = Some c →
      (λ p, instanceOf (provider p)) <$> cd_providersData c
      = ProviderClass <$> providersData (crossChainContractsData b);
  stored_suffixes :
    ∀ b c, crossChainContracts store b = Some c →
      cp_methodSuffix <$> cd_providersData c
      = methodSuffix <$> providersData (crossChainContractsData b);
  stored_objects :
    ∀ b c o, crossChainContracts store b = Some c → o ∈ objectIds c →
      (o < objectsMade store)%nat;
  stored_apart :
    ∀ b b' c c' o, b ≠ b' →
      crossChainContracts store b = Some c →
      crossChainContracts store b' = Some c' →
      o ∈ objectIds c → o ∉ objectIds c'
}.

End CrossChainContracts.

(** ** DebridgeCrossChainTradeProvider *)
Module DebridgeCrossChainTradeProvider.
Import CrossChainManager.

Record RequiredCrossChainOptions := {
  fromAddress : option string;
  slippageTolerance : Q;
  gasCalculation : string;
  providerAddress : string
}.

Record TransactionRequest := {
  srcChainId : Z;
  srcChainTokenIn : string;
  srcChainTokenInAmount : string;
  slippage : Q;
  dstChainId : Z;
  dstChainTokenOut : string;
  dstChainTokenOutRecipient : string
}.

Record EstimatedToken :=
  { minAmount : string; decimals : Z; symbol : string }.

Record Estimation :=
  { est_dstChainTokenIn : EstimatedToken; est_dstChainTokenOut : EstimatedToken }.

Record TransactionResponse := { tx : string; estimation : Estimation }.

Record DebridgeCrossChainTrade := {
  from : PriceTokenAmount;
  to : PriceTokenAmount;
  transactionRequest : string;
  gasData : option string;
  priceImpact : Z;
  slippage_ : Q;
  fee : BigNumber.t;
  feeSymbol : string;
  feePercent_ : Q;
  networkFee : BigNumber.t;
  networkFeeSymbol : string;
  transitAmount : BigNumber.t;
  tradeProviderAddress : string
}.

(** What calculate resolves with when it does not resolve with null. *)
Record DebridgeWrappedTrade :=
  { trade : option DebridgeCrossChainTrade; error : option JsError }.

(** The collaborators of the provider that are not part of the sources:
    the list of supported blockchains, the wallet of the injector, the
    decimals of a token, Web3Pure.toWei and fromWei, the blockchain ids, the
    HTTP client, the gas data of the Symbiosis trade class, the parser of
    errors, and the product of two numbers as the engine computes it.  The
    conversions and the lookup of a blockchain id are taken not to throw;
    the request of the HTTP client and the gas data can fail. *)
Record Env := {
  symbiosisSupported : BlockchainName → bool;
  walletAddress : option string;
  decimalsOf : PriceToken → Z;
  toWei : BigNumber.t → Z → string;
  fromWei : string → Z → BigNumber.t;
  blockchainId : BlockchainName → Z;
  httpClient_get : string → TransactionRequest → Result TransactionResponse;
  getGasData : PriceTokenAmount → PriceTokenAmount → string → Result (option string);
  parseError : JsError → JsError;
  numberProduct : Q → Q → Q
}.

Definition isSupportedBlockchain (env : Env) (blockchain : BlockchainName) : bool :=
  symbiosisSupported env blockchain.

Definition apiEndpoint : string :=
  "https://deswap.debridge.finance/v1.0/transaction".

Definition feePercent : Q := 15 # 10000.

(** [from.tokenAmount.multipliedBy(100 - feePercent).dividedBy(100)]: the
    number [100 - feePercent] is 99.9985, which bignumber.js reads from its
    decimal string. *)
Definition fromAmountWithoutFee (tokenAmount : BigNumber.t) : BigNumber.t :=
  BigNumber.dividedBy
    (BigNumber.multipliedBy tokenAmount (BigNumber.Finite (999985 # 10000)))
    (BigNumber.ofZ 100).

(** [options.fromAddress || this.walletAddress]: an empty string is falsy. *)
Definition fromAddressOf (env : Env) (options : RequiredCrossChainOptions)
  : option string :=
  match fromAddress options with
  | Some a => if String.eqb a "" then walletAddress env else Some a
  | None => walletAddress env
  end.

Definition emptyAddressError : JsError :=
  RubicSdkError "From address or wallet address must not be empty in Symbiosis".

Definition requestParamsOf (env : Env) (from : PriceTokenAmount)
    (toToken : PriceToken) (options : RequiredCrossChainOptions)
    (fromAddress : string) : TransactionRequest :=
  let tokenAmountIn :=
    toWei env (fromAmountWithoutFee (tokenAmount from))
              (decimalsOf env (token from)) in
  let slippageTolerance := numberProduct env (slippageTolerance options) 100 in
  {| srcChainId := blockchainId env (blockchain (token from));
     srcChainTokenIn := address (token from);
     srcChainTokenInAmount := tokenAmountIn;
     slippage := slippageTolerance;
     dstChainId := blockchainId env (blockchain toToken);
     dstChainTokenOut := address toToken;
     dstChainTokenOutRecipient := fromAddress |}.

(** The body of the try block: what it returns, or what it throws. *)
Definition tryCalculate (env : Env) (from : PriceTokenAmount) (toToken : PriceToken)
    (options : RequiredCrossChainOptions)
  : list TransactionRequest * Result DebridgeWrappedTrade :=
  match fromAddressOf env options with
  | None => ([], Err emptyAddressError)
  | Some fromAddress =>
      if String.eqb fromAddress "" then ([], Err emptyAddressError)
      else
        let requestParams := requestParamsOf env from toToken options fromAddress in
        match httpClient_get env apiEndpoint requestParams with
        | Err e => ([requestParams], Err e)
        | Ok response =>
            let to :=
              {| token := toToken;
                 tokenAmount :=
                   fromWei env
                     (minAmount (est_dstChainTokenOut (estimation response)))
                     (decimals (est_dstChainTokenOut (estimation response))) |} in
            let gasData :=
              if String.eqb (gasCalculation options) "enabled"
              then getGasData env from to (tx response)
              else Ok None in
            match gasData with
            | Err e => ([requestParams], Err e)
            | Ok gasData =>
                let transitToken := est_dstChainTokenIn (estimation response) in
                ([requestParams],
                 Ok {| trade :=
                         Some {| from := from;
                                 to := to;
                                 transactionRequest := tx response;
                                 gasData := gasData;
                                 priceImpact := 0;
                                 slippage_ := slippageTolerance options;
                                 fee :=
                                   BigNumber.minus (tokenAmount from)
                                     (fromAmountWithoutFee (tokenAmount from));
                                 feeSymbol :=
                                   symbol (est_dstChainTokenIn (estimation response));
                                 feePercent_ := feePercent;
                                 networkFee := BigNumber.ofZ 0;
                                 networkFeeSymbol := "";
                                 transitAmount :=
                                   fromWei env (minAmount transitToken)
                                               (decimals transitToken);
                                 tradeProviderAddress := providerAddress options |};
                       error := None |})
            end
        end
  end.

(** [calculate(from, toToken, options)]: the requests sent to the API and
    what the promise resolves with, [None] being null. *)
Definition calculate (env : Env) (from : PriceTokenAmount) (toToken : PriceToken)
    (options : RequiredCrossChainOptions)
  : list TransactionRequest * option DebridgeWrappedTrade :=
  let fromBlockchain := blockchain (token from) in
  let toBlockchain := blockchain toToken in
  if negb (isSupportedBlockchain env fromBlockchain)
     || negb (isSupportedBlockchain env toBlockchain)
  then ([], None)
  else
    match tryCalculate env from toToken options with
    | (requests, Ok wrappedTrade) => (requests, Some wrappedTrade)
    | (requests, Err err) =>
        let rubicSdkError := parseError env err in
        (requests, Some {| trade := None; error := Some rubicSdkError |})
    end.

End DebridgeCrossChainTradeProvider.

(** ** The ranking rule in the words of the specification *)
Module Specification.
Import CrossChainManager.

(** The effective cost per unit of output as the specification words it: the
    reference price divided by the output amount of the quote, a fixed cost
    charged in a third asset being converted into the reference unit (the
    amount charged times the price of that asset) and added before the
    division.  This is the rule the ranker of the code is compared with; it
    is not a translation of the code. *)
Definition effectiveCostPerUnitOfOutput (trade : CrossChainTrade)
    (referencePrice : BigNumber.t) : BigNumber.t :=
  match trade with
  | CelerCrossChainTrade _ to cryptoFeeToken =>
      BigNumber.dividedBy
        (BigNumber.plus referencePrice
           (BigNumber.multipliedBy (tokenAmount cryptoFeeToken)
                                   (price (token cryptoFeeToken))))
        (tokenAmount to)
  | t => BigNumber.dividedBy referencePrice (tokenAmount (trade_to t))
  end.

End Specification.

(** ** Concrete inputs *)
Module Examples.
Import Web3Public.

Definition NATIVE_TOKEN_ADDRESS : string :=
  "0x0000000000000000000000000000000000000000".

Definition USDT : string := "0xdac17f958d2ee523a2206206994597c13d831ec7".

Definition DAI : string := "0x6b175474e89094c44da98b954eedeac495271d0f".

Definition wallet : string := "0x52bc44d5378309ee2abf1539bf71de1b7d7be3b5".

(** A node on which every read goes through, the sub-calls on [DAI] and the
    balance reads of 0xbad revert, and numbers are read as the length of
    their text. *)
Definition node : Web3 := {|
  host := "https://rpc.example";
  isNativeAddress := String.eqb NATIVE_TOKEN_ADDRESS;
  encodeABI := λ methodName args, String.concat "," (methodName :: args);
  toBigNumber := λ s, BigNumber.Finite (inject_Z (Z.of_nat (String.length s)));
  toString16 := λ s, s;
  eth_call :=
    λ c, {| success :=
              negb (String.eqb (target c) DAI)
              && negb (String.eqb (callData c) "balanceOf,0xbad");
            returnData := target c |};
  call_rejects := None;
  eth_getBalance := λ _, Ok "1000000"
|}.

(** The answer of a node to one request: calls with empty data fail. *)
Definition answer (r : RpcRequest) : RpcResponse string :=
  {| id := req_id r;
     result := Some (method r);
     error :=
       if bool_decide (data <$> req_params r = [""]) then Some "execution reverted"
       else None |}.

(** A transport that delivers the responses last call first. *)
Definition reversingClient : HttpClient string :=
  {| post := λ _ batch, Ok (reverse (answer <$> batch)) |}.

(** A transport whose request fails. *)
Definition failingClient : HttpClient string :=
  {| post := λ _ _, Err (NetworkError "connect ECONNREFUSED") |}.

(** A transport that delivers the responses in the order of the batch. *)
Definition inOrderClient : HttpClient string :=
  {| post := λ _ batch, Ok (answer <$> batch) |}.

(** A transport that delivers every response but the one to the second
    call, last call first. *)
Definition droppingClient : HttpClient string :=
  {| post := λ _ batch, Ok (reverse (answer <$> delete 1%nat batch)) |}.

(** A node on which the contract calls and the native balance read fail. *)
Definition offlineNode : Web3 := {|
  host := "https://rpc.example";
  isNativeAddress := String.eqb NATIVE_TOKEN_ADDRESS;
  encodeABI := λ methodName args, String.concat "," (methodName :: args);
  toBigNumber := λ s, BigNumber.Finite (inject_Z (Z.of_nat (String.length s)));
  toString16 := λ s, s;
  eth_call := λ c, {| success := false; returnData := "" |};
  call_rejects := Some (NetworkError "call timed out");
  eth_getBalance := λ _, Err (NetworkError "getBalance timed out")
|}.

Definition threeCalls : list RpcCallData :=
  [ {| rpcMethod := "eth_blockNumber";
       rpc_params := {| from := wallet; to := USDT; data := "0x01"; rpc_value := None |} |};
    {| rpcMethod := "eth_estimateGas";
       rpc_params := {| from := wallet; to := USDT; data := ""; rpc_value := None |} |};
    {| rpcMethod := "eth_gasPrice";
       rpc_params := {| from := wallet; to := DAI; data := "0x02"; rpc_value := None |} |} ].

Definition twoBatchCalls : list BatchCall :=
  [ {| contractMethod := "swap"; params := ["1"]; value := None |};
    {| contractMethod := "swap"; params := ["2"]; value := Some "ff" |} ].

Definition balanceOfAbi : list AbiItem :=
  [ {| name := "balanceOf"; outputs := Some ["uint256"] |} ].

(** A decoder that accepts every non-empty return data. *)
Definition decodeText (_ : list string) (returnData : string) : option string :=
  if String.eqb returnData "" then None else Some returnData.

(** A node that learns of the transaction 0xabc after [n] lookups and holds
    its receipt; the gas price is 30 gwei. *)
Definition ethKnowingAfter (n : nat) : Eth := {|
  eth_getTransaction :=
    λ _ k, if (k <? n)%nat then Ok None
           else Ok (Some {| tx_hash := "0xabc"; gasPrice := 30000000000 |});
  eth_getTransactionReceipt := λ _, Ok (Some {| gasUsed := 21000 |});
  eth_getGasPrice := Ok 30000000000
|}.

(** A node that never learns of the transaction. *)
Definition ethNeverKnowing : Eth := {|
  eth_getTransaction := λ _ _, Ok None;
  eth_getTransactionReceipt := λ _, Ok None;
  eth_getGasPrice := Err (NetworkError "connect ECONNREFUSED")
|}.

(** The calls of a web3 batch: the first is answered with the sender it was
    given, the second reverts, the request of the third fails. *)
Definition web3Calls : list (CallParams → Result string) :=
  [ λ callParams, Ok (default "" (snd <$> head callParams));
    λ _, Err (LibraryError "execution reverted");
    λ _, Err (NetworkError "socket hang up") ].

Import CrossChainManager.

Definition usd (q : Q) (b : BlockchainName) : PriceToken :=
  {| address := USDT; blockchain := b; price := BigNumber.Finite q |}.

Definition amountOf (t : PriceToken) (q : Q) : PriceTokenAmount :=
  {| token := t; tokenAmount := BigNumber.Finite q |}.

Definition rubicTrade : ProviderWrappedTrade :=
  {| p_trade :=
       Some (RubicCrossChainTrade (amountOf (usd 1 ETHEREUM) 100)
                                  (amountOf (usd 1 POLYGON) 97));
     p_error := None |}.

Definition celerTrade : ProviderWrappedTrade :=
  {| p_trade :=
       Some (CelerCrossChainTrade (amountOf (usd 1 ETHEREUM) 100)
                                  (amountOf (usd 1 POLYGON) 99)
                                  (amountOf (usd 3 ETHEREUM) (1 # 100)));
     p_error := None |}.

Definition lifiTrade : ProviderWrappedTrade :=
  {| p_trade :=
       Some (LifiCrossChainTrade (amountOf (usd 1 ETHEREUM) 100)
                                 (amountOf (usd 1 POLYGON) 98));
     p_error := None |}.


(** A provider answer that carries an error and no trade. *)
Definition failedTrade : ProviderWrappedTrade :=
  {| p_trade := None; p_error := Some (RubicSdkError "min amount") |}.

Definition priceTokens (fromToken : InputToken) (fromAmount : string)
    (toToken : InputToken) : Result (PriceTokenAmount * PriceToken) :=
  Ok ({| token := {| address := inputAddress fromToken;
                     blockchain := inputBlockchain fromToken;
                     price := BigNumber.Finite 1 |};
         tokenAmount := BigNumber.Finite 100 |},
      {| address := inputAddress toToken;
         blockchain := inputBlockchain toToken;
         price := BigNumber.Finite 1 |}).

Definition celerChains : list BlockchainName :=
  [ETHEREUM; BINANCE_SMART_CHAIN; POLYGON; AVALANCHE; FANTOM].

(** Rubic, Celer and Lifi quote; Symbiosis runs into the timeout. *)
Definition market : Env := {|
  getPriceTokensFromInputTokens := priceTokens;
  Celer_isSupportedBlockchain := λ b, bool_decide (b ∈ celerChains);
  settledCalculation :=
    λ type _ _ _,
      match type with
      | RUBIC => Resolved (Some rubicTrade)
      | CELER => Resolved (Some celerTrade)
      | SYMBIOSIS => TimedOut
      | LIFI => Resolved (Some lifiTrade)
      | DEBRIDGE => Rejected (RubicSdkError "unsupported")
      end
|}.

(** No provider has a trade: null, a rejection, a timeout. *)
Definition deadMarket : Env := {|
  getPriceTokensFromInputTokens := priceTokens;
  Celer_isSupportedBlockchain := λ b, bool_decide (b ∈ celerChains);
  settledCalculation :=
    λ type _ _ _,
      match type with
      | CELER => Resolved None
      | SYMBIOSIS => TimedOut
      | _ => Rejected (RubicSdkError "no route")
      end
|}.

(** Every provider resolves with an answer that carries an error and no
    trade, as a provider does whose own calculation has failed. *)
Definition erroringMarket : Env := {|
  getPriceTokensFromInputTokens := priceTokens;
  Celer_isSupportedBlockchain := λ b, bool_decide (b ∈ celerChains);
  settledCalculation := λ _ _ _ _, Resolved (Some failedTrade)
|}.

Definition allDisabled : SwapManagerCrossChainCalculationOptions :=
  {| disabledProviders := Some [RUBIC; CELER; SYMBIOSIS; LIFI]; timeout := None |}.

Definition usdtOnEthereum : InputToken := TokenStruct USDT ETHEREUM.

Definition daiOnPolygon : InputToken := TokenStruct DAI POLYGON.

(** What [priceTokens] answers for [usdtOnEthereum] and [daiOnPolygon]. *)
Definition source : PriceTokenAmount :=
  {| token := {| address := USDT; blockchain := ETHEREUM;
                 price := BigNumber.Finite 1 |};
     tokenAmount := BigNumber.Finite 100 |}.

Definition destination : PriceToken :=
  {| address := DAI; blockchain := POLYGON; price := BigNumber.Finite 1 |}.

Definition wrap (type : CrossChainTradeType) (t : ProviderWrappedTrade)
  : WrappedCrossChainTrade :=
  {| trade := p_trade t; tradeType := type; error := p_error t |}.

(** The collaborators of the Debridge provider: four supported blockchains,
    an API that quotes 98 for the transit and the output token, amounts
    written in wei with 18 decimals cut off. *)
Definition debridgeEnv : DebridgeCrossChainTradeProvider.Env := {|
  DebridgeCrossChainTradeProvider.symbiosisSupported :=
    λ b, bool_decide (b ∈ [ETHEREUM; BINANCE_SMART_CHAIN; POLYGON; AVALANCHE]);
  DebridgeCrossChainTradeProvider.walletAddress := Some wallet;
  DebridgeCrossChainTradeProvider.decimalsOf := λ _, 18;
  DebridgeCrossChainTradeProvider.toWei := λ _ _, "99998500000000000000";
  DebridgeCrossChainTradeProvider.fromWei := λ _ _, BigNumber.Finite 98;
  DebridgeCrossChainTradeProvider.blockchainId :=
    λ b, match b with ETHEREUM => 1 | POLYGON => 137 | _ => 0 end;
  DebridgeCrossChainTradeProvider.httpClient_get :=
    λ _ _,
      Ok {| DebridgeCrossChainTradeProvider.tx := "0x4d8160ba";
            DebridgeCrossChainTradeProvider.estimation :=
              {| DebridgeCrossChainTradeProvider.est_dstChainTokenIn :=
                   {| DebridgeCrossChainTradeProvider.minAmount := "98000000";
                      DebridgeCrossChainTradeProvider.decimals := 6;
                      DebridgeCrossChainTradeProvider.symbol := "USDC" |};
                 DebridgeCrossChainTradeProvider.est_dstChainTokenOut :=
                   {| DebridgeCrossChainTradeProvider.minAmount :=
                        "98000000000000000000";
                      DebridgeCrossChainTradeProvider.decimals := 18;
                      DebridgeCrossChainTradeProvider.symbol := "DAI" |} |} |};
  DebridgeCrossChainTradeProvider.getGasData := λ _ _ _, Ok None;
  DebridgeCrossChainTradeProvider.parseError := λ e, e;
  DebridgeCrossChainTradeProvider.numberProduct := Qmult
|}.

Definition debridgeOptions : DebridgeCrossChainTradeProvider.RequiredCrossChainOptions :=
  {| DebridgeCrossChainTradeProvider.fromAddress := None;
     DebridgeCrossChainTradeProvider.slippageTolerance := 2 # 100;
     DebridgeCrossChainTradeProvider.gasCalculation := "disabled";
     DebridgeCrossChainTradeProvider.providerAddress :=
       "0x0000000000000000000000000000000000000000" |}.

End Examples.

(* ===================================================================== *)
(** * Part II. Properties *)
(* ===================================================================== *)

(** ** Array.prototype.sort *)
Section ArraySort.
Context {A : Type} (comparefn : A → A → Z).

Lemma sortInsert_perm x placed :
  JS.sortInsert comparefn x placed ≡ₚ x :: placed.
Proof.
  induction placed as [|y placed IH]; simpl; [done|].
  destruct (comparefn x y <? 0); [|done].
  rewrite IH. apply Permutation_swap.
Qed.

Lemma fold_sortInsert_perm l placed :
  fold_left (λ placed x, JS.sortInsert comparefn x placed) l placed
    ≡ₚ l ++ placed.
Proof.
  revert placed. induction l as [|x l IH]; intros placed; simpl; [done|].
  rewrite IH, sortInsert_perm. by rewrite Permutation_middle.
Qed.

Lemma Array_sort_perm l : JS.Array_sort comparefn l ≡ₚ l.
Proof.
  unfold JS.Array_sort. rewrite reverse_Permutation.
  rewrite fold_sortInsert_perm. by rewrite app_nil_r.
Qed.

Lemma Array_sort_length l : length (JS.Array_sort comparefn l) = length l.
Proof. apply Permutation_length, Array_sort_perm. Qed.

Lemma Array_sort_elem_of x l : x ∈ JS.Array_sort comparefn l ↔ x ∈ l.
Proof. by rewrite Array_sort_perm. Qed.

Section consistent.
Context (P : A → Prop) (HC : Consistent comparefn P).

Lemma sortInsert_sorted x placed :
  P x → Forall P placed →
  StronglySorted (flip (sortedBefore comparefn)) placed →
  StronglySorted (flip (sortedBefore comparefn)) (JS.sortInsert comparefn x placed).
Proof.
  intros Hx HP Hs. induction Hs as [|y placed Hs IH Hy]; simpl.
  { repeat constructor. }
  apply Forall_cons in HP as [HPy HP].
  destruct (Z.ltb_spec (comparefn x y) 0) as [Hlt|Hge].
  - constructor; [by apply IH|].
    rewrite sortInsert_perm. constructor; [|done].
    unfold flip, sortedBefore. lia.
  - assert (comparefn y x ≤ 0) as Hyx by by apply (consistent_flip comparefn P HC).
    constructor; [by constructor|].
    constructor; [done|].
    rewrite Forall_forall in Hy, HP. apply Forall_forall. intros z Hz.
    unfold flip, sortedBefore in *.
    apply (consistent_trans comparefn P HC z y x); auto.
Qed.

Lemma fold_sortInsert_sorted l placed :
  Forall P l → Forall P placed →
  StronglySorted (flip (sortedBefore comparefn)) placed →
  StronglySorted (flip (sortedBefore comparefn))
    (fold_left (λ placed x, JS.sortInsert comparefn x placed) l placed).
Proof.
  revert placed. induction l as [|x l IH]; intros placed Hl HP Hs; simpl; [done|].
  apply Forall_cons in Hl as [Hx Hl]. apply IH; [done| |].
  - rewrite sortInsert_perm. by constructor.
  - by apply sortInsert_sorted.
Qed.

Lemma StronglySorted_rev (R : relation A) l :
  StronglySorted (flip R) l → StronglySorted R (reverse l).
Proof.
  induction 1 as [|x l Hs IH Hx]; [constructor|].
  rewrite reverse_cons.
  apply StronglySorted_app_2; [|done|repeat constructor].
  intros a b Ha Hb. apply list_elem_of_singleton in Hb as ->.
  rewrite Forall_forall in Hx. rewrite elem_of_reverse in Ha.
  exact (Hx a Ha).
Qed.

(** On a consistent comparison function the result is sorted ascending. *)
Lemma Array_sort_sorted l :
  Forall P l → StronglySorted (sortedBefore comparefn) (JS.Array_sort comparefn l).
Proof.
  intros Hl. apply StronglySorted_rev, fold_sortInsert_sorted; auto.
  constructor.
Qed.

(** Hence its first element stands before every element. *)
Lemma Array_sort_head_least l first rest :
  Forall P l → JS.Array_sort comparefn l = first :: rest →
  ∀ x, x ∈ rest → sortedBefore comparefn first x.
Proof.
  intros Hl Heq x Hx. pose proof (Array_sort_sorted l Hl) as Hs.
  rewrite Heq in Hs. apply StronglySorted_cons in Hs as [Hs _].
  rewrite Forall_forall in Hs. by apply Hs.
Qed.
(** Values tied with the same value are tied with each other, hence never
    answered to stand strictly before one another. *)
Lemma Consistent_tied a x y :
  P a → P x → P y → comparefn x a = 0 → comparefn y a = 0 → ¬ comparefn x y < 0.
Proof.
  intros Ha Hx Hy Hxa Hya Hlt.
  pose proof (consistent_flip comparefn P HC x a Hx Ha) as Hax.
  pose proof (consistent_trans comparefn P HC y a x Hy Ha Hx) as Hyx.
  pose proof (consistent_antisym comparefn P HC x y Hx Hy Hlt). lia.
Qed.

Lemma sortInsert_tied a x placed :
  P a → P x → Forall P placed →
  filter (λ z, comparefn z a = 0) (JS.sortInsert comparefn x placed)
  = filter (λ z, comparefn z a = 0) (x :: placed).
Proof.
  intros Ha Hx. induction placed as [|y placed IH]; intros HP; simpl; [done|].
  apply Forall_cons in HP as [Hy HP].
  destruct (Z.ltb_spec (comparefn x y) 0) as [Hlt|Hge]; [|done].
  rewrite (filter_cons _ y), IH by done. rewrite !filter_cons.
  destruct (decide (comparefn y a = 0)) as [Hya|Hya]; [|done].
  destruct (decide (comparefn x a = 0)) as [Hxa|Hxa]; [|done].
  by destruct (Consistent_tied a x y).
Qed.

Lemma fold_sortInsert_tied a l placed :
  P a → Forall P l → Forall P placed →
  filter (λ z, comparefn z a = 0)
    (fold_left (λ placed x, JS.sortInsert comparefn x placed) l placed)
  = reverse (filter (λ z, comparefn z a = 0) l)
      ++ filter (λ z, comparefn z a = 0) placed.
Proof.
  intros Ha. revert placed.
  induction l as [|x l IH]; intros placed Hl HP; simpl; [done|].
  apply Forall_cons in Hl as [Hx Hl].
  rewrite IH; [|done|rewrite sortInsert_perm; by constructor].
  rewrite sortInsert_tied by done. rewrite !filter_cons.
  destruct (decide (comparefn x a = 0)); [|done].
  by rewrite reverse_cons, <- app_assoc.
Qed.

(** On a consistent comparison function the sort is stable: the values tied
    with a given value keep their relative order. *)
Lemma Array_sort_stable a l :
  P a → Forall P l →
  filter (λ z, comparefn z a = 0) (JS.Array_sort comparefn l)
  = filter (λ z, comparefn z a = 0) l.
Proof.
  intros Ha Hl. unfold JS.Array_sort.
  rewrite filter_reverse, fold_sortInsert_tied by (done || constructor).
  rewrite filter_nil, app_nil_r. apply reverse_involutive.
Qed.

End consistent.
End ArraySort.

(** ** Lists *)

Lemma seq_StronglySorted j n : StronglySorted lt (seq j n).
Proof.
  revert j. induction n as [|n IH]; intros j; simpl; constructor; [apply IH|].
  apply Forall_forall. intros x Hx. apply elem_of_seq in Hx. lia.
Qed.

(** Two elements of a list with the same key are the same element when the
    keys are pairwise distinct. *)
Lemma NoDup_fmap_elem_of_inj {A B} (f : A → B) (l : list A) x y :
  NoDup (f <$> l) → x ∈ l → y ∈ l → f x = f y → x = y.
Proof.
  intros Hnd Hx Hy Hf.
  apply list_elem_of_lookup in Hx as [i Hi]. apply list_elem_of_lookup in Hy as [j Hj].
  assert (i = j) as ->.
  { apply (NoDup_lookup (f <$> l) i j (f x)); [done| |].
    - by rewrite list_lookup_fmap, Hi.
    - by rewrite list_lookup_fmap, Hj, Hf. }
  congruence.
Qed.

(** ** rpcBatchRequest *)
Section RpcBatch.
Import Web3Public.
Context {T : Type}.

Lemma byId_consistent : Consistent (@byId T) (λ _, True).
Proof. split; unfold byId; intros; lia. Qed.

Lemma batchOf_ids seed rpcCallsData :
  req_id <$> batchOf seed rpcCallsData
  = (λ i, seed + Z.of_nat i) <$> seq 0 (length rpcCallsData).
Proof.
  unfold batchOf. rewrite fmap_imap.
  exact (imap_seq_0 rpcCallsData (λ i, seed + Z.of_nat i)).
Qed.

Lemma batchOf_length seed rpcCallsData :
  length (batchOf seed rpcCallsData) = length rpcCallsData.
Proof. apply length_imap. Qed.

(** The correlation ids of a batch are pairwise distinct. *)
Lemma batchOf_ids_NoDup seed rpcCallsData :
  NoDup (req_id <$> batchOf seed rpcCallsData).
Proof.
  rewrite batchOf_ids. apply NoDup_fmap_2_strong; [|apply NoDup_seq].
  intros; lia.
Qed.

Lemma batchOf_ids_sorted seed rpcCallsData :
  StronglySorted Z.le (req_id <$> batchOf seed rpcCallsData).
Proof.
  rewrite batchOf_ids.
  apply (StronglySorted_fmap _ lt); [intros; lia|apply seq_StronglySorted].
Qed.

Lemma batchOf_ids_lookup seed rpcCallsData i :
  (i < length rpcCallsData)%nat →
  (req_id <$> batchOf seed rpcCallsData) !! i = Some (seed + Z.of_nat i).
Proof.
  intros Hi. rewrite batchOf_ids, list_lookup_fmap, lookup_seq_lt by done.
  done.
Qed.

(** Sorting a complete response set by id puts the ids in batch order. *)
Lemma sorted_response_ids seed rpcCallsData (response : list (RpcResponse T)) :
  id <$> response ≡ₚ req_id <$> batchOf seed rpcCallsData →
  id <$> JS.Array_sort byId response = req_id <$> batchOf seed rpcCallsData.
Proof.
  intros Hperm. apply (StronglySorted_unique Z.le).
  - apply (StronglySorted_fmap _ (sortedBefore byId)).
    + unfold sortedBefore, byId. intros; lia.
    + apply (Array_sort_sorted byId _ byId_consistent). by apply Forall_forall.
  - apply batchOf_ids_sorted.
  - by rewrite Array_sort_perm.
Qed.

(** The entry at position [i] of the sorted response is the one that
    carries the id given to call [i]. *)
Lemma sorted_response_lookup seed rpcCallsData (response : list (RpcResponse T)) i item :
  id <$> response ≡ₚ req_id <$> batchOf seed rpcCallsData →
  (i < length rpcCallsData)%nat →
  item ∈ response → id item = seed + Z.of_nat i →
  JS.Array_sort byId response !! i = Some item.
Proof.
  intros Hperm Hi Hin Hid.
  pose proof (sorted_response_ids seed rpcCallsData response Hperm) as Hids.
  pose proof (batchOf_ids_lookup seed rpcCallsData i Hi) as Hlk.
  rewrite <- Hids, list_lookup_fmap in Hlk.
  destruct (JS.Array_sort byId response !! i) as [item'|] eqn:Hitem'; [|done].
  simpl in Hlk. f_equal.
  apply (NoDup_fmap_elem_of_inj id response).
  - rewrite Hperm. apply batchOf_ids_NoDup.
  - apply (Array_sort_elem_of byId). by eapply list_elem_of_lookup_2.
  - done.
  - congruence.
Qed.
End RpcBatch.


Section RpcBatchRequest.
Import Web3Public.
Context {T : Type} (httpClient : HttpClient T) (w : Web3) (seed : Z).

Lemma rpcBatchRequest_resolves rpcCallsData response :
  post httpClient (host w) (batchOf seed rpcCallsData) = Ok response →
  rpcBatchRequest httpClient w seed rpcCallsData
  = Ok (responseValue <$> JS.Array_sort byId response).
Proof. unfold rpcBatchRequest. by intros ->. Qed.

Lemma rpcBatchRequest_rejects rpcCallsData e :
  post httpClient (host w) (batchOf seed rpcCallsData) = Err e →
  rpcBatchRequest httpClient w seed rpcCallsData = Err e.
Proof. unfold rpcBatchRequest. by intros ->. Qed.

(** The result has as many entries as the transport delivered responses. *)
Lemma rpcBatchRequest_length rpcCallsData response results :
  post httpClient (host w) (batchOf seed rpcCallsData) = Ok response →
  rpcBatchRequest httpClient w seed rpcCallsData = Ok results →
  length results = length response.
Proof.
  intros Hpost. rewrite (rpcBatchRequest_resolves _ _ Hpost). intros [= <-].
  by rewrite length_fmap, Array_sort_length.
Qed.

(** The entries of a resolved batch request, position by position. *)
Lemma rpcBatchRequest_entries rpcCallsData response :
  post httpClient (host w) (batchOf seed rpcCallsData) = Ok response →
  id <$> response ≡ₚ req_id <$> batchOf seed rpcCallsData →
  ∃ results,
    rpcBatchRequest httpClient w seed rpcCallsData = Ok results
    ∧ length results = length rpcCallsData
    ∧ ∀ (i : nat) request item,
        batchOf seed rpcCallsData !! i = Some request →
        item ∈ response → id item = req_id request →
        results !! i = Some (responseValue item).
Proof.
  intros Hpost Hperm.
  eexists. split; [by apply rpcBatchRequest_resolves|]. split.
  - rewrite length_fmap, Array_sort_length.
    rewrite <- (length_fmap id), Hperm, length_fmap. apply batchOf_length.
  - intros i request item Hreq Hin Hid.
    assert (i < length rpcCallsData)%nat as Hi.
    { rewrite <- (batchOf_length seed). by eapply lookup_lt_Some. }
    assert (req_id request = seed + Z.of_nat i) as Hrid.
    { pose proof (batchOf_ids_lookup seed rpcCallsData i Hi) as Hlk.
      rewrite list_lookup_fmap, Hreq in Hlk. by injection Hlk. }
    rewrite list_lookup_fmap.
    rewrite (sorted_response_lookup seed rpcCallsData response i item); auto.
    congruence.
Qed.


End RpcBatchRequest.




Section FailureIsolation.
Import Web3Public.

Lemma mapThrowing_resolves {A B} (f : A → Result B) (g : A → B) l :
  (∀ x, x ∈ l → f x = Ok (g x)) → mapThrowing f l = Ok (g <$> l).
Proof.
  induction l as [|x l IH]; intros Hf; simpl; [done|].
  rewrite (Hf x) by left. rewrite IH; [done|].
  intros y Hy. apply Hf. by right.
Qed.

(** What the caller gets for one output of the multicall. *)
Lemma decodeOutput_isolated {Output}
    (decodeParameters : list string → string → option Output) methodOutputAbi o :
  (success o = true → is_Some (decodeParameters methodOutputAbi (returnData o))) →
  decodeOutput decodeParameters methodOutputAbi o
  = Ok (if success o
        then {| cm_success := true;
                output := decodeParameters methodOutputAbi (returnData o) |}
        else {| cm_success := false; output := None |}).
Proof.
  unfold decodeOutput. destruct (success o); [|done].
  intros Hdec. by destruct (Hdec eq_refl) as [v ->].
Qed.

(** C9.  In a batch that mixes failing and succeeding calls, a call the node
    reports as failed yields null (rpcBatchRequest) or the entry
    {success: false, output: null} (multicallContractMethod) at its own
    position, and every succeeding call still yields its own result at its
    own position. *)
Theorem batch_failure_isolation {T Output}
    (httpClient : HttpClient T) (w : Web3) (seed : Z) rpcCallsData response
    (decodeParameters : list string → string → option Output)
    contractAddress contractAbi methodName methodOutputAbi methodCallsArguments :
  post httpClient (host w) (batchOf seed rpcCallsData) = Ok response →
  id <$> response ≡ₚ req_id <$> batchOf seed rpcCallsData →
  call_rejects w = None →
  methodOutputAbiOf contractAbi methodName = Some methodOutputAbi →
  (∀ args, args ∈ methodCallsArguments →
     let o := eth_call w (methodCall w contractAddress methodName args) in
     success o = true →
     is_Some (decodeParameters methodOutputAbi (returnData o))) →
  (∃ results,
     rpcBatchRequest httpClient w seed rpcCallsData = Ok results
     ∧ length results = length rpcCallsData
     ∧ ∀ (i : nat) request item,
         batchOf seed rpcCallsData !! i = Some request →
         item ∈ response → id item = req_id request →
         (is_Some (error item) → results !! i = Some None)
         ∧ (error item = None → results !! i = Some (result item)))
  ∧ (∃ entries,
       multicallContractMethod w decodeParameters contractAddress contractAbi
         methodName methodCallsArguments = Ok entries
       ∧ length entries = length methodCallsArguments
       ∧ ∀ (i : nat) args,
           methodCallsArguments !! i = Some args →
           let o := eth_call w (methodCall w contractAddress methodName args) in
           (success o = false →
              entries !! i = Some {| cm_success := false; output := None |})
           ∧ (success o = true →
                entries !! i
                = Some {| cm_success := true;
                          output := decodeParameters methodOutputAbi (returnData o) |})).
Proof.
  intros Hpost Hperm Hcall Habi Hdec. split.
  - destruct (rpcBatchRequest_entries httpClient w seed rpcCallsData
                response Hpost Hperm) as (results & Hres & Hlen & Hpos).
    exists results. split; [done|]. split; [done|].
    intros i request item Hreq Hin Hid.
    specialize (Hpos i request item Hreq Hin Hid). unfold responseValue in Hpos.
    split.
    + intros [e He]. by rewrite He in Hpos.
    + intros He. by rewrite He in Hpos.
  - unfold multicallContractMethod, multicall. rewrite Hcall, Habi.
    eexists. split.
    { apply mapThrowing_resolves. intros o Ho.
      apply decodeOutput_isolated.
      unfold tryAggregate in Ho. apply list_elem_of_fmap in Ho as (c & -> & Hc).
      apply list_elem_of_fmap in Hc as (args & -> & Hargs). by apply Hdec. }
    split; [unfold tryAggregate; by rewrite !length_fmap|].
    intros i args Hargs. unfold tryAggregate.
    rewrite !list_lookup_fmap, Hargs. simpl.
    split; by intros ->.
Qed.

End FailureIsolation.

Lemma batch_failure_isolation_witness :
  let seed := 1700000000000 in
  let batch := Web3Public.batchOf seed Examples.threeCalls in
  let response := reverse (Examples.answer <$> batch) in
  let methodCallsArguments := [["0xaaa"]; ["0xbad"]; ["0xccc"]] in
  (∃ results,
     Web3Public.rpcBatchRequest Examples.reversingClient Examples.node seed
       Examples.threeCalls = Ok results
     ∧ length results = length Examples.threeCalls
     ∧ ∀ (i : nat) request item,
         batch !! i = Some request →
         item ∈ response → Web3Public.id item = Web3Public.req_id request →
         (is_Some (Web3Public.error item) → results !! i = Some None)
         ∧ (Web3Public.error item = None →
            results !! i = Some (Web3Public.result item)))
  ∧ (∃ entries,
       Web3Public.multicallContractMethod Examples.node Examples.decodeText
         Examples.USDT Examples.balanceOfAbi "balanceOf" methodCallsArguments
       = Ok entries
       ∧ length entries = length methodCallsArguments
       ∧ ∀ (i : nat) args,
           methodCallsArguments !! i = Some args →
           let o := Web3Public.eth_call Examples.node
                      (Web3Public.methodCall Examples.node Examples.USDT
                         "balanceOf" args) in
           (Web3Public.success o = false →
              entries !! i
              = Some {| Web3Public.cm_success := false;
                        Web3Public.output := None |})
           ∧ (Web3Public.success o = true →
                entries !! i
                = Some {| Web3Public.cm_success := true;
                          Web3Public.output :=
                            Examples.decodeText ["uint256"]
                              (Web3Public.returnData o) |})).
Proof.
  intros seed batch response methodCallsArguments.
  apply (batch_failure_isolation Examples.reversingClient Examples.node seed
           Examples.threeCalls response Examples.decodeText Examples.USDT
           Examples.balanceOfAbi "balanceOf" ["uint256"] methodCallsArguments).
  - reflexivity.
  - exact (reverse_Permutation (Web3Public.req_id <$> batch)).
  - reflexivity.
  - reflexivity.
  - intros args Hargs. unfold methodCallsArguments in Hargs.
    repeat (apply elem_of_cons in Hargs as [->|Hargs]);
      [vm_compute; eauto..|by apply elem_of_nil in Hargs].
Defined.

Section TransportFailure.
Import Web3Public.

(** batchEstimatedGas never rejects: whatever is thrown inside its try block
    ends in the all-null array of its catch block. *)
Lemma batchEstimatedGas_never_rejects httpClient w seed contractAddress fromAddress
    callsData :
  isOk (batchEstimatedGas httpClient w seed contractAddress fromAddress callsData)
  = true.
Proof.
  unfold batchEstimatedGas.
  by destruct (rpcBatchRequest _ _ _ _).
Qed.

(** C4, as the code has it.  When the network request of a batch fails,
    rpcBatchRequest rejects with that failure, whereas batchEstimatedGas
    catches it and resolves with one null per submitted call. *)
Theorem transport_failure_propagation {T} (httpClient : HttpClient T)
    (gasClient : HttpClient string) (w : Web3) (seed : Z) rpcCallsData
    contractAddress fromAddress callsData e e' :
  post httpClient (host w) (batchOf seed rpcCallsData) = Err e →
  post gasClient (host w)
    (batchOf seed (estimateGasCallsData w contractAddress fromAddress callsData))
  = Err e' →
  rpcBatchRequest httpClient w seed rpcCallsData = Err e
  ∧ batchEstimatedGas gasClient w seed contractAddress fromAddress callsData
    = Ok (replicate (length callsData) None).
Proof.
  intros Hpost Hgas. split; [by apply rpcBatchRequest_rejects|].
  unfold batchEstimatedGas.
  rewrite (rpcBatchRequest_rejects gasClient w seed _ e' Hgas).
  f_equal. clear Hgas.
  induction callsData as [|c l IH]; simpl; [done|]. by rewrite <- IH.
Qed.

End TransportFailure.

Lemma transport_failure_propagation_witness :
  Web3Public.rpcBatchRequest Examples.failingClient Examples.node 1700000000000
    Examples.threeCalls
  = Err (NetworkError "connect ECONNREFUSED")
  ∧ Web3Public.batchEstimatedGas Examples.failingClient Examples.node
      1700000000000 Examples.USDT Examples.wallet Examples.twoBatchCalls
    = Ok (replicate (length Examples.twoBatchCalls) None).
Proof.
  apply (transport_failure_propagation Examples.failingClient Examples.failingClient
           Examples.node 1700000000000 Examples.threeCalls Examples.USDT
           Examples.wallet Examples.twoBatchCalls
           (NetworkError "connect ECONNREFUSED")
           (NetworkError "connect ECONNREFUSED")); reflexivity.
Defined.

(** C4, counterexample.  The network request of the batch fails, yet
    batchEstimatedGas reports no error to its caller: it resolves with the
    all-null sequence. *)
Lemma batchEstimatedGas_hides_transport_failure :
  let batch :=
    Web3Public.batchOf 1700000000000
      (Web3Public.estimateGasCallsData Examples.node Examples.USDT Examples.wallet
         Examples.twoBatchCalls) in
  Web3Public.post Examples.failingClient (Web3Public.host Examples.node) batch
  = Err (NetworkError "connect ECONNREFUSED")
  ∧ ¬ (∃ e, Web3Public.batchEstimatedGas Examples.failingClient Examples.node
              1700000000000 Examples.USDT Examples.wallet Examples.twoBatchCalls
            = Err e)
  ∧ Web3Public.batchEstimatedGas Examples.failingClient Examples.node
      1700000000000 Examples.USDT Examples.wallet Examples.twoBatchCalls
    = Ok [None; None].
Proof.
  split; [reflexivity|]. split; [|reflexivity].
  intros [e He]. discriminate He.
Qed.

(** ** getTokensBalances *)
Section GetTokensBalances.
Import Web3Public.

Lemma findIndex_Some {A} (p : A → bool) l i :
  JS.findIndex p l = Some i ↔
  ∃ x, l !! i = Some x ∧ p x = true ∧ ∀ j y, l !! j = Some y → (j < i)%nat → p y = false.
Proof.
  unfold JS.findIndex. split.
  - destruct (list_find _ l) as [[i' x]|] eqn:Hfind; [|done].
    intros [= <-]. apply list_find_Some in Hfind as (Hx & Hp & Hfirst).
    exists x. split; [done|]. split; [by apply Is_true_true|].
    intros j y Hy Hj. specialize (Hfirst j y Hy Hj).
    destruct (p y); [by destruct Hfirst|done].
  - intros (x & Hx & Hp & Hfirst).
    assert (list_find (λ x, Is_true (p x)) l = Some (i, x)) as ->; [|done].
    apply list_find_Some. split; [done|]. split; [by apply Is_true_true|].
    intros j y Hy Hj. rewrite (Hfirst j y Hy Hj). by intros [].
Qed.

Lemma findIndex_None {A} (p : A → bool) l :
  JS.findIndex p l = None ↔ ∀ x, x ∈ l → p x = false.
Proof.
  unfold JS.findIndex. rewrite fmap_None, list_find_None, Forall_forall.
  split; intros H x Hx; specialize (H x Hx).
  - destruct (p x); [by destruct H|done].
  - rewrite H. by intros [].
Qed.

Lemma findIndex_is_Some {A} (p : A → bool) l x :
  x ∈ l → p x = true → is_Some (JS.findIndex p l).
Proof.
  intros Hx Hp. destruct (JS.findIndex p l) eqn:Hfind; [done|].
  rewrite findIndex_None in Hfind. rewrite (Hfind x Hx) in Hp. done.
Qed.

(** Removing the entry at [i], mapping, and inserting at [i] again gives the
    mapped array with its entry [i] replaced. *)
Lemma splice_insert_remove {A B} (g : A → B) l i b :
  (i < length l)%nat →
  JS.splice_insert i b (g <$> JS.splice_remove i l) = <[i:=b]> (g <$> l).
Proof.
  unfold JS.splice_insert, JS.splice_remove.
  revert i. induction l as [|a l IH]; intros [|i] Hi; simpl in *; try lia.
  - by rewrite drop_0.
  - f_equal. apply IH. lia.
Qed.

Lemma tokensBalancesOf_tryAggregate w address l :
  tokensBalancesOf w (tryAggregate w (balanceOfCall w address <$> l))
  = (λ tokenAddress,
       let r := eth_call w (balanceOfCall w address tokenAddress) in
       if success r then toBigNumber w (returnData r) else BigNumber.zero) <$> l.
Proof.
  unfold tokensBalancesOf, tryAggregate. rewrite <- !list_fmap_compose.
  by apply list_fmap_ext.
Qed.

(** C6.  When the list holds a native-coin address, the native entry is
    taken out before the multicall set is built, its balance is asked for by
    a query of its own, and the result is put back at the index the native
    address had: the returned sequence has the length and the order of the
    input list, whichever of the two requests settles first. *)
Theorem getTokensBalances_native_respliced (w : Web3) (order : JS.Settles)
    (address : string) (tokensAddresses : list string) native balance :
  native ∈ tokensAddresses →
  isNativeAddress w native = true →
  call_rejects w = None →
  eth_getBalance w address = Ok balance →
  ∃ (i : nat) native',
    tokensAddresses !! i = Some native'
    ∧ isNativeAddress w native' = true
    ∧ issued (getTokensBalances w order address tokensAddresses)
      = [GetBalanceRequest address;
         MulticallRequest (balanceOfCall w address <$> delete i tokensAddresses)]
    ∧ ∃ balances,
        settled (getTokensBalances w order address tokensAddresses) = Ok balances
        ∧ length balances = length tokensAddresses
        ∧ balances !! i = Some (toBigNumber w balance)
        ∧ ∀ (j : nat) tokenAddress,
            j ≠ i → tokensAddresses !! j = Some tokenAddress →
            balances !! j
            = Some (let r := eth_call w (balanceOfCall w address tokenAddress) in
                    if success r then toBigNumber w (returnData r)
                    else BigNumber.zero).
Proof.
  intros Hin Hnative Hcall Hbal.
  destruct (findIndex_is_Some _ _ _ Hin Hnative) as [i Hfind].
  pose proof Hfind as Hi. apply findIndex_Some in Hi as (native' & Hlk & Hnat' & _).
  exists i, native'. split; [done|]. split; [done|].
  unfold getTokensBalances, multicall, getBalance.
  rewrite Hfind, Hcall, Hbal. simpl. split; [done|].
  eexists. split; [done|].
  rewrite tokensBalancesOf_tryAggregate.
  assert (i < length tokensAddresses)%nat as Hlt by by eapply lookup_lt_Some.
  rewrite splice_insert_remove by done.
  split; [by rewrite length_insert, length_fmap|]. split.
  - apply list_lookup_insert_eq. by rewrite length_fmap.
  - intros j tokenAddress Hj Hlkj.
    rewrite list_lookup_insert_ne by done.
    by rewrite list_lookup_fmap, Hlkj.
Qed.

(** C10.  With a native-coin address in the array, the run removes that
    entry from the caller's array itself, before the multicall is built from
    what is left; without one, the array is left as it was. *)
Theorem getTokensBalances_mutates_argument (w : Web3) (order : JS.Settles)
    (address : string) (tokensAddresses : list string) :
  ((∃ native, native ∈ tokensAddresses ∧ isNativeAddress w native = true) →
     ∃ (i : nat) native,
       tokensAddresses !! i = Some native
       ∧ isNativeAddress w native = true
       ∧ array_after (getTokensBalances w order address tokensAddresses)
         = delete i tokensAddresses
       ∧ array_after (getTokensBalances w order address tokensAddresses)
         ≠ tokensAddresses
       ∧ S (length (array_after (getTokensBalances w order address tokensAddresses)))
         = length tokensAddresses
       ∧ last (issued (getTokensBalances w order address tokensAddresses))
         = Some (MulticallRequest
                   (balanceOfCall w address
                      <$> array_after (getTokensBalances w order address tokensAddresses))))
  ∧ ((∀ a, a ∈ tokensAddresses → isNativeAddress w a = false) →
       array_after (getTokensBalances w order address tokensAddresses)
       = tokensAddresses
       ∧ issued (getTokensBalances w order address tokensAddresses)
         = [MulticallRequest (balanceOfCall w address <$> tokensAddresses)]).
Proof.
  split.
  - intros (native & Hin & Hnative).
    destruct (findIndex_is_Some _ _ _ Hin Hnative) as [i Hfind].
    pose proof Hfind as Hi. apply findIndex_Some in Hi as (native' & Hlk & Hnat' & _).
    exists i, native'. split; [done|]. split; [done|].
    unfold getTokensBalances. rewrite Hfind. simpl. unfold JS.splice_remove.
    assert (i < length tokensAddresses)%nat as Hlt by by eapply lookup_lt_Some.
    assert (S (length (delete i tokensAddresses)) = length tokensAddresses) as Hlen.
    { rewrite length_delete by by eexists. lia. }
    split; [done|]. split; [|done].
    intros Heq. rewrite Heq in Hlen. lia.
  - intros Hnone. apply findIndex_None in Hnone.
    unfold getTokensBalances. by rewrite Hnone.
Qed.

End GetTokensBalances.

(** ** calculateTradeFromTokens and calculateTrade *)
Section Orchestrator.
Import CrossChainManager.

Lemma getFullOptions_full o : getFullOptions (Some (asOptions o)) = o.
Proof. by destruct o. Qed.

Lemma selectedProviders_elem_of env options from to type :
  type ∈ selectedProviders env options from to ↔
  type ∈ tradeProviders
  ∧ (type ∉ req_disabledProviders options)
  ∧ ¬ (type = RUBIC
       ∧ Celer_isSupportedBlockchain env (blockchain (token from)) = true
       ∧ Celer_isSupportedBlockchain env (blockchain to) = true).
Proof.
  unfold selectedProviders. rewrite list_elem_of_In, filter_In, <- list_elem_of_In.
  unfold providerSelected, includes.
  destruct (decide (type ∈ req_disabledProviders options)) as [Hd|Hd].
  { rewrite bool_decide_eq_true_2 by done. intuition discriminate. }
  rewrite bool_decide_eq_false_2 by done.
  destruct (decide (type = RUBIC)) as [->|Hr].
  - rewrite bool_decide_eq_true_2 by done. simpl.
    destruct (Celer_isSupportedBlockchain env (blockchain (token from))),
             (Celer_isSupportedBlockchain env (blockchain to));
      simpl; intuition discriminate.
  - rewrite bool_decide_eq_false_2 by done. simpl. intuition.
Qed.

(** The two exits and the success of calculateTradeFromTokens. *)
Lemma calculateTradeFromTokens_unfold env from to options :
  calculateTradeFromTokens env from to options
  = match selectedProviders env options from to with
    | [] => ([], Err noProviders)
    | providers =>
        (CalculateCall <$> providers,
         match calculationResults env options from to providers with
         | [] => Err noSuccess
         | results => Ok results
         end)
    end.
Proof.
  unfold calculateTradeFromTokens.
  destruct (selectedProviders env options from to) as [|p ps]; [done|].
  unfold bind, emit, throw, ret.
  destruct (calculationResults env options from to (p :: ps)); simpl;
    by rewrite app_nil_r.
Qed.

(** C7.  Selection keeps, in registry order, the registered providers that
    the caller has not disabled, and drops the general provider (Rubic) when
    the specialised one (Celer) supports both blockchains of the pair; with
    nothing left the calculation fails with the no-providers error before any
    provider is called, otherwise exactly the selected providers are called. *)
Theorem provider_selection env from to options :
  (∀ type,
     type ∈ selectedProviders env options from to ↔
     type ∈ tradeProviders
     ∧ (type ∉ req_disabledProviders options)
     ∧ ¬ (type = RUBIC
          ∧ Celer_isSupportedBlockchain env (blockchain (token from)) = true
          ∧ Celer_isSupportedBlockchain env (blockchain to) = true))
  ∧ selectedProviders env options from to `sublist_of` tradeProviders
  ∧ (selectedProviders env options from to = [] →
       calculateTradeFromTokens env from to options = ([], Err noProviders))
  ∧ (selectedProviders env options from to ≠ [] →
       (calculateTradeFromTokens env from to options).1
       = CalculateCall <$> selectedProviders env options from to).
Proof.
  split; [apply selectedProviders_elem_of|]. split.
  { unfold selectedProviders. generalize tradeProviders.
    induction l as [|x l IH]; simpl; [done|].
    destruct (providerSelected _ _ _ _ x); by constructor. }
  rewrite calculateTradeFromTokens_unfold.
  destruct (selectedProviders env options from to); split; done.
Qed.

Lemma rank_perm wrappedTrades : rank wrappedTrades ≡ₚ wrappedTrades.
Proof.
  unfold rank. destruct (fromTokenPriceOf wrappedTrades); apply Array_sort_perm.
Qed.

Lemma rank_nil_inv wrappedTrades : rank wrappedTrades = [] → wrappedTrades = [].
Proof.
  intros H. apply Permutation_nil. by rewrite <- H, rank_perm.
Qed.

Lemma calculateBestTradeFromTokens_unfold env from to options :
  calculateBestTradeFromTokens env from to options
  = match selectedProviders env options from to with
    | [] => ([], Err noProviders)
    | providers =>
        (CalculateCall <$> providers,
         match calculationResults env options from to providers with
         | [] => Err noSuccess
         | results => Ok (rank results)
         end)
    end.
Proof.
  unfold calculateBestTradeFromTokens.
  rewrite getFullOptions_full, calculateTradeFromTokens_unfold.
  destruct (selectedProviders env options from to) as [|p ps]; [reflexivity|].
  unfold bind, ret.
  destruct (calculationResults env options from to (p :: ps)); simpl; [done|].
  by rewrite app_nil_r.
Qed.

(** calculateTrade with a destination given as a Token instance on the
    blockchain of the source throws before any call leaves the manager. *)
Lemma calculateTrade_rejects_instance_on_same_blockchain env fromToken fromAmount
    address b options :
  inputBlockchain fromToken = b →
  calculateTrade env fromToken fromAmount (TokenInstance address b) options
  = ([], Err sameBlockchain).
Proof.
  intros <-. unfold calculateTrade. simpl.
  by rewrite bool_decide_eq_true_2.
Qed.

(** With a destination given as a plain object the check is skipped: the
    price-token lookup is made whatever the two blockchains are. *)
Lemma calculateTrade_struct_skips_validation env fromToken fromAmount address b
    options :
  ∃ calls,
    (calculateTrade env fromToken fromAmount (TokenStruct address b) options).1
    = GetPriceTokensCall fromToken fromAmount (TokenStruct address b) :: calls.
Proof.
  unfold calculateTrade, bind, emit, liftResult. simpl.
  destruct (getPriceTokensFromInputTokens _ _ _ _) as [[from to]|e]; simpl.
  - destruct (calculateBestTradeFromTokens _ _ _ _). simpl. eauto.
  - eauto.
Qed.

(** Once validation has passed and the tokens are known, calculateTrade is
    calculateBestTradeFromTokens after the lookup. *)
Lemma calculateTrade_unfold env fromToken fromAmount toToken options from to :
  instanceofToken toToken
  && bool_decide (inputBlockchain fromToken = inputBlockchain toToken) = false →
  getPriceTokensFromInputTokens env fromToken fromAmount toToken = Ok (from, to) →
  calculateTrade env fromToken fromAmount toToken options
  = (GetPriceTokensCall fromToken fromAmount toToken
       :: (calculateBestTradeFromTokens env from to (getFullOptions options)).1,
     (calculateBestTradeFromTokens env from to (getFullOptions options)).2).
Proof.
  intros Hvalid Htokens. unfold calculateTrade. rewrite Hvalid.
  unfold bind, emit, liftResult. rewrite Htokens. simpl.
  by destruct (calculateBestTradeFromTokens _ _ _ _).
Qed.

(** No calculation returns an empty sequence. *)
Lemma calculateTrade_never_empty env fromToken fromAmount toToken options :
  (calculateTrade env fromToken fromAmount toToken options).2 ≠ Ok [].
Proof.
  unfold calculateTrade.
  destruct (instanceofToken toToken && _); [done|].
  unfold bind, emit, liftResult. simpl.
  destruct (getPriceTokensFromInputTokens _ _ _ _) as [[from to]|e]; simpl; [|done].
  rewrite calculateBestTradeFromTokens_unfold.
  destruct (selectedProviders env (getFullOptions options) from to) as [|p ps];
    [done|].
  cbv beta iota. cbn [snd].
  destruct (calculationResults env (getFullOptions options) from to (p :: ps))
    as [|r rs] eqn:Hr; [done|].
  intros [= H]. by apply rank_nil_inv in H.
Qed.

Lemma calculationResults_nil env options from to providers :
  (∀ type, type ∈ providers →
     calculationResult type
       (settledCalculation env type from to (req_timeout options)) = None) →
  calculationResults env options from to providers = [].
Proof.
  unfold calculationResults.
  induction providers as [|p ps IH]; intros Hnone; simpl; [done|].
  rewrite (Hnone p) by left. apply IH. intros type Hin. apply Hnone. by right.
Qed.

Lemma omap_nil_inv {A B} (f : A → option B) l :
  omap f l = [] → ∀ x, x ∈ l → f x = None.
Proof.
  induction l as [|y l IH]; simpl; intros Hnil x Hx.
  { by apply elem_of_nil in Hx. }
  destruct (f y) eqn:Hy; [done|].
  apply elem_of_cons in Hx as [->|Hx]; auto.
Qed.

Lemma calculationResults_elem_of env options from to providers w :
  w ∈ calculationResults env options from to providers ↔
  ∃ type wrappedTrade,
    type ∈ providers
    ∧ settledCalculation env type from to (req_timeout options)
      = Resolved (Some wrappedTrade)
    ∧ w = {| trade := p_trade wrappedTrade;
             tradeType := type;
             error := p_error wrappedTrade |}.
Proof.
  unfold calculationResults. rewrite list_elem_of_omap. split.
  - intros (type & Htype & Hres). exists type.
    unfold calculationResult in Hres.
    destruct (settledCalculation env type from to (req_timeout options))
      as [[wrappedTrade|]| |]; try done.
    injection Hres as <-. eauto.
  - intros (type & wrappedTrade & Htype & Hres & ->). exists type.
    split; [done|]. unfold calculationResult. by rewrite Hres.
Qed.

Lemma omap_length_all {A B} (f : A → option B) l :
  (∀ x, x ∈ l → is_Some (f x)) → length (omap f l) = length l.
Proof.
  induction l as [|x l IH]; intros Hall; simpl; [done|].
  destruct (Hall x) as [y ->]; [by left|]. simpl. f_equal.
  apply IH. intros z Hz. apply Hall. by right.
Qed.

(** C2, as the code has it.  No calculation returns an empty sequence.  A
    calculation that passes validation, gets its tokens and keeps at least one
    provider selected either returns a non-empty sequence or raises the
    aggregate failure, and it raises the aggregate failure exactly when every
    selected provider resolved with null, rejected or timed out.  Whatever
    else a provider resolves with is an entry of the returned sequence, under
    the type of the provider: when every selected provider resolves with an
    answer that carries an error and no trade, the calculation returns these
    answers, one per selected provider, and raises nothing. *)
Theorem calculateTrade_result_or_aggregate_failure env fromToken fromAmount toToken
    options from to :
  (calculateTrade env fromToken fromAmount toToken options).2 ≠ Ok []
  ∧ (instanceofToken toToken
     && bool_decide (inputBlockchain fromToken = inputBlockchain toToken) = false →
     getPriceTokensFromInputTokens env fromToken fromAmount toToken = Ok (from, to) →
     selectedProviders env (getFullOptions options) from to ≠ [] →
     ((∃ ranked,
         (calculateTrade env fromToken fromAmount toToken options).2 = Ok ranked
         ∧ ranked ≠ [])
      ∨ (calculateTrade env fromToken fromAmount toToken options).2
        = Err (RubicSdkError "No success providers calculation for the trade"))
     ∧ ((calculateTrade env fromToken fromAmount toToken options).2
        = Err (RubicSdkError "No success providers calculation for the trade")
        ↔ ∀ type,
            type ∈ selectedProviders env (getFullOptions options) from to →
            settledCalculation env type from to (req_timeout (getFullOptions options))
            = Resolved None
            ∨ (∃ e,
                 settledCalculation env type from to
                   (req_timeout (getFullOptions options)) = Rejected e)
            ∨ settledCalculation env type from to
                (req_timeout (getFullOptions options)) = TimedOut)
     ∧ (∀ type wrappedTrade,
          type ∈ selectedProviders env (getFullOptions options) from to →
          settledCalculation env type from to (req_timeout (getFullOptions options))
          = Resolved (Some wrappedTrade) →
          ∃ ranked,
            (calculateTrade env fromToken fromAmount toToken options).2 = Ok ranked
            ∧ {| trade := p_trade wrappedTrade;
                 tradeType := type;
                 error := p_error wrappedTrade |} ∈ ranked)
     ∧ ((∀ type,
           type ∈ selectedProviders env (getFullOptions options) from to →
           ∃ e,
             settledCalculation env type from to
               (req_timeout (getFullOptions options))
             = Resolved (Some {| p_trade := None; p_error := Some e |})) →
        ∃ ranked,
          (calculateTrade env fromToken fromAmount toToken options).2 = Ok ranked
          ∧ ranked ≠ []
          ∧ length ranked
            = length (selectedProviders env (getFullOptions options) from to)
          ∧ ∀ w, w ∈ ranked → trade w = None ∧ is_Some (error w))).
Proof.
  split; [apply calculateTrade_never_empty|].
  intros Hvalid Htokens Hsel.
  rewrite (calculateTrade_unfold _ _ _ _ _ from to Hvalid Htokens). cbn [snd].
  rewrite calculateBestTradeFromTokens_unfold.
  set (opts := getFullOptions options) in *.
  destruct (selectedProviders env opts from to) as [|p ps] eqn:Hp; [done|].
  cbv beta iota. cbn [snd].
  set (providers := p :: ps) in *.
  fold noSuccess.
  split; [|split; [|split]].
  - destruct (calculationResults env opts from to providers) as [|r rs] eqn:Hr;
      [by right|].
    left. eexists. split; [done|]. intros H. by apply rank_nil_inv in H.
  - split.
    + destruct (calculationResults env opts from to providers) as [|r rs] eqn:Hr;
        [|done].
      intros _ type Htype.
      pose proof (omap_nil_inv _ _ Hr type Htype) as Hnone.
      unfold calculationResult in Hnone.
      destruct (settledCalculation env type from to (req_timeout opts))
        as [[wrappedTrade|]|e|]; try done; eauto.
    + intros Hnone. rewrite calculationResults_nil; [done|].
      intros type Htype. unfold calculationResult.
      by destruct (Hnone type Htype) as [->|[[e ->]| ->]].
  - intros type wrappedTrade Htype Hres.
    assert ({| trade := p_trade wrappedTrade; tradeType := type;
               error := p_error wrappedTrade |}
            ∈ calculationResults env opts from to providers) as Hin.
    { apply calculationResults_elem_of. by exists type, wrappedTrade. }
    destruct (calculationResults env opts from to providers) as [|r rs] eqn:Hr;
      [by apply elem_of_nil in Hin|].
    eexists. split; [done|]. by rewrite rank_perm.
  - intros Hall.
    assert (length (calculationResults env opts from to providers)
            = length providers) as Hlen.
    { apply omap_length_all. intros type Htype.
      destruct (Hall type Htype) as [e He]. unfold calculationResult.
      rewrite He. eauto. }
    assert (∀ w, w ∈ calculationResults env opts from to providers →
              trade w = None ∧ is_Some (error w)) as Hfailed.
    { intros w (type & wt & Htype & Hres & ->)%calculationResults_elem_of.
      destruct (Hall type Htype) as [e He]. rewrite He in Hres.
      injection Hres as <-. simpl. eauto. }
    destruct (calculationResults env opts from to providers) as [|r rs] eqn:Hr.
    { discriminate Hlen. }
    eexists. split; [done|]. split.
    { intros H. by apply rank_nil_inv in H. }
    split; [by rewrite rank_perm|].
    intros w Hw. rewrite rank_perm in Hw. by apply Hfailed.
Qed.

End Orchestrator.

Lemma calculateTrade_result_or_aggregate_failure_witness :
  (CrossChainManager.calculateTrade Examples.deadMarket Examples.usdtOnEthereum "100"
     Examples.daiOnPolygon None).2
  = Err (RubicSdkError "No success providers calculation for the trade").
Proof.
  refine (proj2 (proj1 (proj2 (proj2 (calculateTrade_result_or_aggregate_failure
                                        Examples.deadMarket Examples.usdtOnEthereum
                                        "100" Examples.daiOnPolygon None
                                        Examples.source Examples.destination)
                                 eq_refl eq_refl _))) _).
  - vm_compute. discriminate.
  - intros type _. destruct type; simpl; eauto.
Defined.

(** C2, counterexample.  Every enabled provider returns an error (an answer
    with an error and no trade): the orchestrator does not raise the aggregate
    failure, it returns the three failed answers. *)
Lemma calculateTrade_all_providers_return_error :
  let run :=
    CrossChainManager.calculateTrade Examples.erroringMarket Examples.usdtOnEthereum
      "100" Examples.daiOnPolygon None in
  Examples.failedTrade
  = {| CrossChainManager.p_trade := None;
       CrossChainManager.p_error := Some (RubicSdkError "min amount") |}
  ∧ run.1
    = [CrossChainManager.GetPriceTokensCall Examples.usdtOnEthereum "100"
         Examples.daiOnPolygon;
       CrossChainManager.CalculateCall CrossChainManager.CELER;
       CrossChainManager.CalculateCall CrossChainManager.SYMBIOSIS;
       CrossChainManager.CalculateCall CrossChainManager.LIFI]
  ∧ run.2
    = Ok [Examples.wrap CrossChainManager.CELER Examples.failedTrade;
          Examples.wrap CrossChainManager.SYMBIOSIS Examples.failedTrade;
          Examples.wrap CrossChainManager.LIFI Examples.failedTrade]
  ∧ run.2 ≠ Err (RubicSdkError "No success providers calculation for the trade").
Proof.
  cbv zeta. split; [reflexivity|]. split; [by vm_compute|].
  assert ((CrossChainManager.calculateTrade Examples.erroringMarket
             Examples.usdtOnEthereum "100" Examples.daiOnPolygon None).2
          = Ok [Examples.wrap CrossChainManager.CELER Examples.failedTrade;
                Examples.wrap CrossChainManager.SYMBIOSIS Examples.failedTrade;
                Examples.wrap CrossChainManager.LIFI Examples.failedTrade]) as H
    by (by vm_compute).
  split; [exact H|]. rewrite H. discriminate.
Qed.

(** C5, at the failing input.  Source and destination are the same token on
    the same blockchain, given as plain objects: the request is not rejected,
    the price-token lookup is made and three providers are called. *)
Lemma calculateTrade_identical_struct_pair_not_rejected :
  let run :=
    CrossChainManager.calculateTrade Examples.market Examples.usdtOnEthereum "100"
      Examples.usdtOnEthereum None in
  run.1
  = [CrossChainManager.GetPriceTokensCall Examples.usdtOnEthereum "100"
       Examples.usdtOnEthereum;
     CrossChainManager.CalculateCall CrossChainManager.CELER;
     CrossChainManager.CalculateCall CrossChainManager.SYMBIOSIS;
     CrossChainManager.CalculateCall CrossChainManager.LIFI]
  ∧ isOk run.2 = true
  ∧ run.2 ≠ Err CrossChainManager.sameBlockchain.
Proof.
  cbv zeta. split; [by vm_compute|].
  assert (isOk (CrossChainManager.calculateTrade Examples.market
                  Examples.usdtOnEthereum "100" Examples.usdtOnEthereum None).2
          = true) as H by (by vm_compute).
  split; [done|]. intros Heq. rewrite Heq in H. discriminate H.
Qed.

(** ** The ranker without a reference price *)
Section FallbackRanking.
Import CrossChainManager.











End FallbackRanking.



(** ** The ranker with a reference price *)

(** C3, at the failing inputs.  The ratio of a Celer quote does not depend
    on the amount of its fee: what is added to the price is the price of one
    unit of the fee asset.  Of three quotes at the reference price 1, the
    Celer quote delivers the most (99) for a fee of 0.00001 coin at the price
    3, worth 0.00003, so that with the fee converted and added its cost per
    unit of output, 1.00003 / 99, is the lowest; the code gives it the ratio
    (1 + 3) / 99 and ranks it last.
    And the reference price is read from a Lifi trade only: two quotes that
    both carry the price of the input token, none of them from Lifi, are not
    ranked by ratio at all, and the dearer one comes out first. *)
Theorem ranker_adds_unit_price_of_fee_asset :
  let rubicTrade := CrossChainManager.RubicCrossChainTrade
                      (Examples.amountOf (Examples.usd 1 CrossChainManager.ETHEREUM) 100)
                      (Examples.amountOf (Examples.usd 1 CrossChainManager.POLYGON) 97) in
  let celerTrade := CrossChainManager.CelerCrossChainTrade
                      (Examples.amountOf (Examples.usd 1 CrossChainManager.ETHEREUM) 100)
                      (Examples.amountOf (Examples.usd 1 CrossChainManager.POLYGON) 99)
                      (Examples.amountOf (Examples.usd 3 CrossChainManager.ETHEREUM)
                         (1 # 100000)) in
  let lifiTrade := CrossChainManager.LifiCrossChainTrade
                     (Examples.amountOf (Examples.usd 1 CrossChainManager.ETHEREUM) 100)
                     (Examples.amountOf (Examples.usd 1 CrossChainManager.POLYGON) 98) in
  let symbiosisTrade := CrossChainManager.SymbiosisCrossChainTrade
                          (Examples.amountOf (Examples.usd 1 CrossChainManager.ETHEREUM) 100)
                          (Examples.amountOf (Examples.usd 1 CrossChainManager.POLYGON) 99) in
  let quote type trade :=
    {| CrossChainManager.trade := Some trade;
       CrossChainManager.tradeType := type;
       CrossChainManager.error := None |} in
  let rubic := quote CrossChainManager.RUBIC rubicTrade in
  let celer := quote CrossChainManager.CELER celerTrade in
  let lifi := quote CrossChainManager.LIFI lifiTrade in
  let symbiosis := quote CrossChainManager.SYMBIOSIS symbiosisTrade in
  let one := BigNumber.Finite 1 in
  (∀ from to feeToken amount amount' fromTokenPrice,
     CrossChainManager.getProviderRatio
       (Some (CrossChainManager.CelerCrossChainTrade from to
                {| CrossChainManager.token := feeToken;
                   CrossChainManager.tokenAmount := amount |}))
       fromTokenPrice
     = CrossChainManager.getProviderRatio
         (Some (CrossChainManager.CelerCrossChainTrade from to
                  {| CrossChainManager.token := feeToken;
                     CrossChainManager.tokenAmount := amount' |}))
         fromTokenPrice)
  ∧ (CrossChainManager.fromTokenPriceOf [rubic; celer; lifi] = Some one
     ∧ CrossChainManager.getProviderRatio (Some celerTrade) one
       = BigNumber.dividedBy (BigNumber.Finite 4) (BigNumber.Finite 99)
     ∧ Specification.effectiveCostPerUnitOfOutput celerTrade one
       = BigNumber.dividedBy (BigNumber.Finite (100003 # 100000)) (BigNumber.Finite 99)
     ∧ BigNumber.comparedTo (Specification.effectiveCostPerUnitOfOutput celerTrade one)
                            (Specification.effectiveCostPerUnitOfOutput lifiTrade one)
       = Some (-1)
     ∧ BigNumber.comparedTo (Specification.effectiveCostPerUnitOfOutput lifiTrade one)
                            (Specification.effectiveCostPerUnitOfOutput rubicTrade one)
       = Some (-1)
     ∧ CrossChainManager.rank [rubic; celer; lifi] = [lifi; rubic; celer])
  ∧ (CrossChainManager.price
       (CrossChainManager.token (CrossChainManager.trade_from symbiosisTrade)) = one
     ∧ CrossChainManager.price
         (CrossChainManager.token (CrossChainManager.trade_from rubicTrade)) = one
     ∧ CrossChainManager.fromTokenPriceOf [symbiosis; rubic] = None
     ∧ BigNumber.comparedTo
         (Specification.effectiveCostPerUnitOfOutput symbiosisTrade one)
         (Specification.effectiveCostPerUnitOfOutput rubicTrade one)
       = Some (-1)
     ∧ CrossChainManager.rank [symbiosis; rubic] = [rubic; symbiosis]).
Proof.
  cbv zeta. split; [reflexivity|].
  split; repeat split; by vm_compute.
Qed.

Lemma getTokensBalances_native_respliced_witness :
  let tokensAddresses :=
    [Examples.USDT; Examples.NATIVE_TOKEN_ADDRESS; Examples.DAI] in
  let run :=
    Web3Public.getTokensBalances Examples.node JS.SecondSettlesFirst Examples.wallet
      tokensAddresses in
  ∃ (i : nat) native',
    tokensAddresses !! i = Some native'
    ∧ Web3Public.isNativeAddress Examples.node native' = true
    ∧ Web3Public.issued run
      = [Web3Public.GetBalanceRequest Examples.wallet;
         Web3Public.MulticallRequest
           (Web3Public.balanceOfCall Examples.node Examples.wallet
              <$> delete i tokensAddresses)]
    ∧ ∃ balances,
        Web3Public.settled run = Ok balances
        ∧ length balances = length tokensAddresses
        ∧ balances !! i = Some (Web3Public.toBigNumber Examples.node "1000000")
        ∧ ∀ (j : nat) tokenAddress,
            j ≠ i → tokensAddresses !! j = Some tokenAddress →
            balances !! j
            = Some (let r :=
                      Web3Public.eth_call Examples.node
                        (Web3Public.balanceOfCall Examples.node Examples.wallet
                           tokenAddress) in
                    if Web3Public.success r
                    then Web3Public.toBigNumber Examples.node
                           (Web3Public.returnData r)
                    else BigNumber.zero).
Proof.
  intros tokensAddresses run.
  apply (getTokensBalances_native_respliced Examples.node JS.SecondSettlesFirst
           Examples.wallet tokensAddresses Examples.NATIVE_TOKEN_ADDRESS "1000000").
  - right; left.
  - reflexivity.
  - reflexivity.
  - reflexivity.
Defined.

Lemma getTokensBalances_mutates_argument_witness :
  let tokensAddresses :=
    [Examples.USDT; Examples.NATIVE_TOKEN_ADDRESS; Examples.DAI] in
  let run :=
    Web3Public.getTokensBalances Examples.node JS.FirstSettlesFirst Examples.wallet
      tokensAddresses in
  ∃ (i : nat) native,
    tokensAddresses !! i = Some native
    ∧ Web3Public.isNativeAddress Examples.node native = true
    ∧ Web3Public.array_after run = delete i tokensAddresses
    ∧ Web3Public.array_after run ≠ tokensAddresses
    ∧ S (length (Web3Public.array_after run)) = length tokensAddresses
    ∧ last (Web3Public.issued run)
      = Some (Web3Public.MulticallRequest
                (Web3Public.balanceOfCall Examples.node Examples.wallet
                   <$> Web3Public.array_after run)).
Proof.
  intros tokensAddresses run.
  apply (proj1 (getTokensBalances_mutates_argument Examples.node JS.FirstSettlesFirst
                  Examples.wallet tokensAddresses)).
  exists Examples.NATIVE_TOKEN_ADDRESS. split; [right; left|reflexivity].
Defined.

Lemma provider_selection_witness :
  CrossChainManager.selectedProviders Examples.market
    (CrossChainManager.getFullOptions None) Examples.source Examples.destination
  = [CrossChainManager.CELER; CrossChainManager.SYMBIOSIS; CrossChainManager.LIFI]
  ∧ (CrossChainManager.calculateTradeFromTokens Examples.market Examples.source
       Examples.destination (CrossChainManager.getFullOptions None)).1
    = CrossChainManager.CalculateCall
        <$> CrossChainManager.selectedProviders Examples.market
              (CrossChainManager.getFullOptions None) Examples.source
              Examples.destination.
Proof.
  split; [reflexivity|].
  apply (proj2 (proj2 (proj2 (provider_selection Examples.market Examples.source
                                Examples.destination
                                (CrossChainManager.getFullOptions None))))).
  discriminate.
Defined.


(* ===================================================================== *)
(** * Part III. Further properties of the code *)
(* ===================================================================== *)

(** ** bignumber.js: the order of comparedTo *)
Section BigNumberOrder.

Lemma compare_finite_le a b :
  compareNumbers (BigNumber.Finite a) (BigNumber.Finite b) ≤ 0 ↔ (a <= b)%Q.
Proof.
  unfold compareNumbers. simpl. rewrite Qle_alt.
  destruct (a ?= b)%Q; simpl; split; intros; try done; lia.
Qed.

Lemma compare_finite_flip a b :
  compareNumbers (BigNumber.Finite b) (BigNumber.Finite a)
  = - compareNumbers (BigNumber.Finite a) (BigNumber.Finite b).
Proof.
  unfold compareNumbers. simpl. rewrite <- (Qcompare_antisym a b).
  by destruct (a ?= b)%Q.
Qed.

Lemma compare_finite_refl a :
  compareNumbers (BigNumber.Finite a) (BigNumber.Finite a) = 0.
Proof.
  unfold compareNumbers. simpl.
  by rewrite (proj1 (Qeq_alt a a) (Qeq_refl a)).
Qed.

(** On numbers, comparedTo is a consistent comparison. *)
Lemma compareNumbers_consistent :
  Consistent compareNumbers (λ x, BigNumber.isNaN x = false).
Proof.
  split.
  - intros [|[]|a] Hx; try done. apply compare_finite_refl.
  - intros [|[]|a] [|[]|b] Hx Hy; try done; try (cbn; lia).
    rewrite (compare_finite_flip a b). lia.
  - intros [|[]|a] [|[]|b] Hx Hy; try done; try (cbn; lia).
    rewrite (compare_finite_flip a b). lia.
  - intros [|[]|a] [|[]|b] [|[]|c] Hx Hy Hz; try done; try (cbn; lia).
    rewrite !compare_finite_le. apply Qle_trans.
Qed.

Lemma lte_compareNumbers x y :
  BigNumber.isNaN x = false → BigNumber.isNaN y = false →
  BigNumber.lte x y = true ↔ compareNumbers x y ≤ 0.
Proof.
  unfold BigNumber.lte, compareNumbers.
  destruct x as [|[]|a], y as [|[]|b]; intros Hx Hy; try done; simpl;
    by rewrite Z.leb_le.
Qed.

(** A comparison through a key is consistent where the keys are. *)
Lemma Consistent_key {A B} (cmp : B → B → Z) (P : B → Prop) (key : A → B) :
  Consistent cmp P → Consistent (λ x y, cmp (key x) (key y)) (λ x, P (key x)).
Proof. intros [H1 H2 H3 H4]. split; eauto. Qed.

Lemma Qred_num_pos q : 0 < Qnum q → 0 < Qnum (Qred q).
Proof.
  intros Hq. pose proof (Qred_correct q) as Heq. unfold Qeq in Heq.
  pose proof (Pos2Z.is_pos (Qden q)). pose proof (Pos2Z.is_pos (Qden (Qred q))).
  nia.
Qed.

(** Rounding a quotient keeps the order of the quotients. *)
Lemma round_half_up_monotone x y :
  0 ≤ Qnum x → (x <= y)%Q →
  (BigNumber.round_half_up x <= BigNumber.round_half_up y)%Q.
Proof.
  destruct x as [nx dx], y as [ny dy]. unfold BigNumber.round_half_up, Qle.
  simpl. intros Hnx Hle.
  set (s := 10 ^ BigNumber.DECIMAL_PLACES).
  assert (0 < s) as Hs by (by vm_compute).
  pose proof (Pos2Z.is_pos dx) as Hdx. pose proof (Pos2Z.is_pos dy) as Hdy.
  assert (0 ≤ ny) as Hny by nia.
  rewrite !Z.abs_eq by done.
  set (mx := (2 * nx * s + Z.pos dx) / (2 * Z.pos dx)).
  set (my := (2 * ny * s + Z.pos dy) / (2 * Z.pos dy)).
  assert (0 ≤ mx) as Hmx by (apply Z.div_pos; nia).
  assert (0 ≤ my) as Hmy by (apply Z.div_pos; nia).
  assert (mx ≤ my) as Hm.
  { apply Z.div_le_lower_bound; [lia|].
    assert (2 * Z.pos dx * mx ≤ 2 * nx * s + Z.pos dx) as Hfloor
      by (apply Z.mul_div_le; lia).
    assert (Z.pos dx * (2 * Z.pos dy * mx) ≤ Z.pos dx * (2 * ny * s + Z.pos dy));
      [|by apply Z.mul_le_mono_pos_l in H].
    nia. }
  apply Z.mul_le_mono_nonneg_r; [lia|].
  destruct (Z.eq_dec nx 0) as [->|Hx0].
  - simpl. pose proof (Z.sgn_nonneg ny). nia.
  - assert (0 < ny) by nia.
    rewrite !Z.sgn_pos by lia. lia.
Qed.

Lemma lte_finite a b :
  BigNumber.lte (BigNumber.Finite a) (BigNumber.Finite b) = true ↔ (a <= b)%Q.
Proof.
  rewrite lte_compareNumbers by done. apply compare_finite_le.
Qed.

End BigNumberOrder.

(** ** The ranker with a reference price: what it sorts by *)
Section RatioRanking.
Import CrossChainManager.

Lemma StronglySorted_impl_elem_of {A} (R R' : relation A) l :
  (∀ x y, x ∈ l → y ∈ l → R x y → R' x y) →
  StronglySorted R l → StronglySorted R' l.
Proof.
  intros Himpl Hs. induction Hs as [|x l Hs IH Hx]; constructor.
  - apply IH. intros a b Ha Hb. apply Himpl; by right.
  - rewrite Forall_forall in Hx. apply Forall_forall. intros y Hy.
    apply Himpl; [by left|by right|by apply Hx].
Qed.

(** With a positive price and well-formed amounts every ratio is a number
    (possibly Infinity: a missing trade, or an output amount of zero). *)
Lemma getProviderRatio_not_NaN w fromTokenPrice :
  BigNumber.isPositiveFinite fromTokenPrice = true →
  wellFormedQuote w = true →
  BigNumber.isNaN (getProviderRatio (trade w) fromTokenPrice) = false.
Proof.
  destruct fromTokenPrice as [| |p]; try done. simpl. intros Hp%Z.ltb_lt.
  assert (BigNumber.isZero p = false) as Hpz.
  { unfold BigNumber.isZero. apply Z.eqb_neq. lia. }
  assert (∀ a, BigNumber.isNonNegativeFinite a = true →
            BigNumber.isNaN (BigNumber.dividedBy (BigNumber.Finite p) a) = false)
    as Hdiv.
  { intros [| |a]; try done. simpl. rewrite Hpz. by destruct (BigNumber.isZero a). }
  unfold wellFormedQuote, getProviderRatio.
  destruct (trade w) as [[f o|f o fee|f o|f o]|]; simpl; try done; try apply Hdiv.
  intros [Ho Hfee]%andb_prop.
  destruct (price (token fee)) as [| |c]; try done. simpl in Hfee.
  apply Z.leb_le in Hfee.
  destruct (tokenAmount o) as [| |a]; try done. simpl.
  assert (BigNumber.isZero (Qred (p + c)) = false) as ->.
  { unfold BigNumber.isZero. apply Z.eqb_neq.
    assert (0 < Qnum (Qred (p + c))); [|lia].
    apply Qred_num_pos. simpl.
    pose proof (Pos2Z.is_pos (Qden p)). pose proof (Pos2Z.is_pos (Qden c)). nia. }
  by destruct (BigNumber.isZero a).
Qed.

(** Adding the price of a fee token to the price never lowers the ratio. *)
Lemma fee_never_lowers_ratio p c a :
  BigNumber.isPositiveFinite p = true →
  BigNumber.isNonNegativeFinite c = true →
  BigNumber.isNonNegativeFinite a = true →
  BigNumber.lte (BigNumber.dividedBy p a)
                (BigNumber.dividedBy (BigNumber.plus p c) a) = true.
Proof.
  destruct p as [| |p], c as [| |c], a as [| |a]; try done. simpl.
  intros Hp%Z.ltb_lt Hc%Z.leb_le Ha%Z.leb_le.
  assert (0 < Qnum (Qred (p + c))) as Hpc.
  { apply Qred_num_pos. simpl.
    pose proof (Pos2Z.is_pos (Qden p)). pose proof (Pos2Z.is_pos (Qden c)). nia. }
  unfold BigNumber.isZero, BigNumber.isNegative.
  destruct (Z.eqb_spec (Qnum a) 0) as [Ha0|Ha0].
  - rewrite (proj2 (Z.eqb_neq (Qnum p) 0)) by lia.
    rewrite (proj2 (Z.eqb_neq (Qnum (Qred (p + c))) 0)) by lia.
    rewrite (proj2 (Z.ltb_ge (Qnum p) 0)) by lia.
    by rewrite (proj2 (Z.ltb_ge (Qnum (Qred (p + c))) 0)) by lia.
  - apply lte_finite. rewrite !Qred_correct.
    assert (0 <= / a)%Q as Hinv.
    { apply Qinv_le_0_compat. unfold Qle. simpl. lia. }
    apply round_half_up_monotone.
    + unfold Qdiv. simpl. unfold Qle in Hinv. simpl in Hinv. nia.
    + unfold Qdiv. apply Qmult_le_compat_r; [|done].
      rewrite Qred_correct. unfold Qle. simpl.
      pose proof (Pos2Z.is_pos (Qden p)). pose proof (Pos2Z.is_pos (Qden c)). nia.
Qed.

Lemma ratioComparator_consistent fromTokenPrice :
  Consistent (ratioComparator fromTokenPrice)
    (λ w, BigNumber.isNaN (getProviderRatio (trade w) fromTokenPrice) = false).
Proof.
  exact (Consistent_key compareNumbers _
           (λ w, getProviderRatio (trade w) fromTokenPrice)
           compareNumbers_consistent).
Qed.

(** X11.  With a positive finite price read from the Lifi trade and
    well-formed amounts, the ratio of a quote is the price divided by the
    output amount of the quote, the price of the fee token of a Celer quote
    being added to the price before the division (so that its ratio is never
    below the ratio of its output alone), and Infinity without a trade; the
    result holds the same quotes sorted ascending by that ratio, so its first
    element has the least ratio. *)
Theorem rank_sorts_by_provider_ratio wrappedTrades fromTokenPrice :
  fromTokenPriceOf wrappedTrades = Some fromTokenPrice →
  BigNumber.isPositiveFinite fromTokenPrice = true →
  Forall (λ w, wellFormedQuote w = true) wrappedTrades →
  (∀ w from to cryptoFeeToken,
     trade w = Some (CelerCrossChainTrade from to cryptoFeeToken) →
     getProviderRatio (trade w) fromTokenPrice
     = BigNumber.dividedBy
         (BigNumber.plus fromTokenPrice (price (token cryptoFeeToken)))
         (tokenAmount to))
  ∧ (∀ w from to cryptoFeeToken,
       w ∈ wrappedTrades →
       trade w = Some (CelerCrossChainTrade from to cryptoFeeToken) →
       BigNumber.lte (BigNumber.dividedBy fromTokenPrice (tokenAmount to))
                     (getProviderRatio (trade w) fromTokenPrice) = true)
  ∧ (∀ w t,
       trade w = Some t → (∀ f o c, t ≠ CelerCrossChainTrade f o c) →
       getProviderRatio (trade w) fromTokenPrice
       = BigNumber.dividedBy fromTokenPrice (tokenAmount (trade_to t)))
  ∧ (∀ w, trade w = None →
       getProviderRatio (trade w) fromTokenPrice = BigNumber.Infinity false)
  ∧ rank wrappedTrades ≡ₚ wrappedTrades
  ∧ StronglySorted
      (λ a b, BigNumber.lte (getProviderRatio (trade a) fromTokenPrice)
                            (getProviderRatio (trade b) fromTokenPrice) = true)
      (rank wrappedTrades)
  ∧ (∀ first rest,
       rank wrappedTrades = first :: rest →
       ∀ w, w ∈ wrappedTrades →
         BigNumber.lte (getProviderRatio (trade first) fromTokenPrice)
                       (getProviderRatio (trade w) fromTokenPrice) = true).
Proof.
  intros Hprice Hpos Hwf.
  split; [by intros w f o c ->|].
  split.
  { intros w f o c Hw Htrade. rewrite Forall_forall in Hwf.
    specialize (Hwf w Hw). unfold wellFormedQuote in Hwf.
    rewrite Htrade in Hwf. apply andb_prop in Hwf as [Ho Hc].
    rewrite Htrade. simpl. by apply fee_never_lowers_ratio. }
  split; [intros w t -> Hnc; destruct t; try done; by destruct (Hnc from to cryptoFeeToken)|].
  split; [by intros w ->|].
  split; [apply rank_perm|].
  assert (Forall (λ w, BigNumber.isNaN (getProviderRatio (trade w) fromTokenPrice)
                       = false) wrappedTrades) as Hnum.
  { eapply Forall_impl; [exact Hwf|]. intros w Hw. by apply getProviderRatio_not_NaN. }
  assert (rank wrappedTrades
          = JS.Array_sort (ratioComparator fromTokenPrice) wrappedTrades) as Hrank.
  { unfold rank. by rewrite Hprice. }
  pose proof (Array_sort_sorted _ _ (ratioComparator_consistent fromTokenPrice)
                wrappedTrades Hnum) as Hsorted.
  rewrite <- Hrank in Hsorted.
  assert (∀ w, w ∈ rank wrappedTrades →
            BigNumber.isNaN (getProviderRatio (trade w) fromTokenPrice) = false)
    as Hnum'.
  { intros w Hw. rewrite rank_perm in Hw. rewrite Forall_forall in Hnum. auto. }
  assert (StronglySorted
            (λ a b, BigNumber.lte (getProviderRatio (trade a) fromTokenPrice)
                                  (getProviderRatio (trade b) fromTokenPrice) = true)
            (rank wrappedTrades)) as Hlte.
  { eapply StronglySorted_impl_elem_of; [|exact Hsorted].
    intros a b Ha Hb Hab. apply lte_compareNumbers; auto. }
  split; [done|].
  intros first rest Heq w Hw. rewrite <- rank_perm, Heq in Hw.
  rewrite Heq in Hlte, Hnum'.
  apply elem_of_cons in Hw as [->|Hw].
  - assert (BigNumber.isNaN (getProviderRatio (trade first) fromTokenPrice) = false)
      as Hf by (apply Hnum'; left).
    apply lte_compareNumbers; auto.
    rewrite (consistent_refl _ _ compareNumbers_consistent); done.
  - apply StronglySorted_cons in Hlte as [Hlte _].
    rewrite Forall_forall in Hlte. by apply Hlte.
Qed.

End RatioRanking.

Lemma rank_sorts_by_provider_ratio_witness :
  let rubic := Examples.wrap CrossChainManager.RUBIC Examples.rubicTrade in
  let celer := Examples.wrap CrossChainManager.CELER Examples.celerTrade in
  let lifi := Examples.wrap CrossChainManager.LIFI Examples.lifiTrade in
  let fromTokenPrice := BigNumber.Finite 1 in
  CrossChainManager.rank [rubic; celer; lifi] = [lifi; rubic; celer]
  ∧ ∀ w, w ∈ [rubic; celer; lifi] →
      BigNumber.lte
        (CrossChainManager.getProviderRatio (CrossChainManager.trade lifi)
           fromTokenPrice)
        (CrossChainManager.getProviderRatio (CrossChainManager.trade w)
           fromTokenPrice)
      = true.
Proof.
  intros rubic celer lifi fromTokenPrice.
  assert (CrossChainManager.rank [rubic; celer; lifi] = [lifi; rubic; celer]) as Hrank
    by (vm_compute; reflexivity).
  assert (Forall (λ w, CrossChainManager.wellFormedQuote w = true)
            [rubic; celer; lifi]) as Hwf
    by (repeat constructor).
  split; [exact Hrank|].
  exact (proj2 (proj2 (proj2 (proj2 (proj2 (proj2
           (rank_sorts_by_provider_ratio [rubic; celer; lifi] fromTokenPrice
              eq_refl eq_refl Hwf))))))
           lifi [rubic; celer] Hrank).
Defined.

(** ** rpcBatchRequest beyond complete response sets *)
Section RpcBatchOrder.
Import Web3Public.
Context {T : Type}.

Lemma StronglySorted_delete {A} (R : relation A) l k :
  StronglySorted R l → StronglySorted R (delete k l).
Proof.
  intros Hs. revert k. induction Hs as [|x l Hs IH Hx]; intros [|k]; simpl;
    try done; try constructor; auto.
  by apply Forall_delete.
Qed.

(** Sorting by id a response set whose ids are pairwise distinct gives the
    one list of these responses that ascends in id. *)
Lemma Array_sort_byId_unique (response sorted : list (RpcResponse T)) :
  NoDup (id <$> response) → sorted ≡ₚ response →
  StronglySorted Z.le (id <$> sorted) →
  JS.Array_sort byId response = sorted.
Proof.
  intros Hnd Hperm Hsorted.
  apply (StronglySorted_unique_strong (sortedBefore byId)).
  - intros a b Ha Hb Hab Hba. unfold sortedBefore, byId in Hab, Hba.
    apply (NoDup_fmap_elem_of_inj id response); [done| | |lia].
    + by apply (Array_sort_elem_of byId).
    + by rewrite <- Hperm.
  - apply (Array_sort_sorted byId _ byId_consistent). by apply Forall_forall.
  - assert (StronglySorted Z.le (id <$> sorted) →
            StronglySorted (sortedBefore byId) sorted) as Hconv.
    { clear. induction sorted as [|x l IH]; simpl; intros Hs; [constructor|].
      apply StronglySorted_cons in Hs as [Hx Hs]. constructor; [auto|].
      rewrite Forall_fmap in Hx. eapply Forall_impl; [exact Hx|].
      intros y Hy. unfold sortedBefore, byId. simpl in Hy. lia. }
    by apply Hconv.
  - by rewrite Array_sort_perm.
Qed.

(** X1.  The result of rpcBatchRequest does not depend on the order in which
    the transport delivers a set of responses with pairwise distinct ids. *)
Theorem rpcBatchRequest_order_independent (client1 client2 : HttpClient T)
    (w : Web3) (seed : Z) rpcCallsData response1 response2 :
  post client1 (host w) (batchOf seed rpcCallsData) = Ok response1 →
  post client2 (host w) (batchOf seed rpcCallsData) = Ok response2 →
  response1 ≡ₚ response2 →
  NoDup (id <$> response1) →
  rpcBatchRequest client1 w seed rpcCallsData
  = rpcBatchRequest client2 w seed rpcCallsData.
Proof.
  intros H1 H2 Hperm Hnd.
  rewrite (rpcBatchRequest_resolves _ _ _ _ _ H1),
          (rpcBatchRequest_resolves _ _ _ _ _ H2).
  do 2 f_equal. apply Array_sort_byId_unique; [done| |].
  - by rewrite Array_sort_perm.
  - apply (StronglySorted_fmap _ (sortedBefore byId)).
    + unfold sortedBefore, byId. intros; lia.
    + apply (Array_sort_sorted byId _ byId_consistent). by apply Forall_forall.
Qed.

(** The entry at position [i] of the result is the value of the response
    that carries the [i]-th smallest id. *)
Lemma rpcBatchRequest_entry_by_rank (httpClient : HttpClient T) (w : Web3)
    (seed : Z) rpcCallsData response (ids : list Z) (i : nat) item :
  post httpClient (host w) (batchOf seed rpcCallsData) = Ok response →
  id <$> response ≡ₚ ids → NoDup ids → StronglySorted Z.le ids →
  item ∈ response → ids !! i = Some (id item) →
  ∃ results,
    rpcBatchRequest httpClient w seed rpcCallsData = Ok results
    ∧ length results = length ids
    ∧ results !! i = Some (responseValue item).
Proof.
  intros Hpost Hperm Hnd Hsorted Hin Hi.
  eexists. split; [by apply rpcBatchRequest_resolves|].
  assert (id <$> JS.Array_sort byId response = ids) as Hids.
  { apply (StronglySorted_unique Z.le); [|done|by rewrite Array_sort_perm].
    apply (StronglySorted_fmap _ (sortedBefore byId)).
    - unfold sortedBefore, byId. intros; lia.
    - apply (Array_sort_sorted byId _ byId_consistent). by apply Forall_forall. }
  split.
  - by rewrite length_fmap, <- (length_fmap id), Hids.
  - rewrite list_lookup_fmap. rewrite <- Hids, list_lookup_fmap in Hi.
    destruct (JS.Array_sort byId response !! i) as [item'|] eqn:Hitem'; [|done].
    simpl in *. do 2 f_equal.
    apply (NoDup_fmap_elem_of_inj id response).
    + by rewrite Hperm.
    + apply (Array_sort_elem_of byId). by eapply list_elem_of_lookup_2.
    + done.
    + congruence.
Qed.

(** X2.  When the transport leaves out the response to call [k], the result
    is one entry short and every entry from position [k] on is the value of
    the response to the next call: the positions no longer match the calls. *)
Theorem rpcBatchRequest_missing_response_shifts (httpClient : HttpClient T)
    (w : Web3) (seed : Z) rpcCallsData response (k : nat) :
  post httpClient (host w) (batchOf seed rpcCallsData) = Ok response →
  (k < length rpcCallsData)%nat →
  id <$> response ≡ₚ delete k (req_id <$> batchOf seed rpcCallsData) →
  ∃ results,
    rpcBatchRequest httpClient w seed rpcCallsData = Ok results
    ∧ S (length results) = length rpcCallsData
    ∧ ∀ (i : nat) item,
        item ∈ response →
        ((i < k)%nat → id item = seed + Z.of_nat i →
           results !! i = Some (responseValue item))
        ∧ ((k ≤ i)%nat → id item = seed + Z.of_nat (S i) →
             results !! i = Some (responseValue item)).
Proof.
  intros Hpost Hk Hperm.
  set (ids := delete k (req_id <$> batchOf seed rpcCallsData)) in *.
  assert (NoDup ids) as Hnd.
  { eapply sublist_NoDup; [apply batchOf_ids_NoDup|apply sublist_delete]. }
  assert (StronglySorted Z.le ids) as Hsorted
    by apply StronglySorted_delete, batchOf_ids_sorted.
  assert (S (length ids) = length rpcCallsData) as Hlen.
  { unfold ids. rewrite length_delete.
    - rewrite length_fmap, batchOf_length. lia.
    - apply lookup_lt_is_Some. by rewrite length_fmap, batchOf_length. }
  eexists. split; [by apply rpcBatchRequest_resolves|]. split.
  { rewrite length_fmap, Array_sort_length, <- (length_fmap id), Hperm. done. }
  intros i item Hin.
  assert (∀ (j : nat), ids !! i = Some (seed + Z.of_nat j) →
            id item = seed + Z.of_nat j →
            (responseValue <$> JS.Array_sort byId response) !! i
            = Some (responseValue item)) as Hentry.
  { intros j Hj Hid. rewrite <- Hid in Hj.
    destruct (rpcBatchRequest_entry_by_rank httpClient w seed rpcCallsData
                response ids i item Hpost Hperm Hnd Hsorted Hin Hj)
      as (results & Hres & _ & Hlk).
    rewrite (rpcBatchRequest_resolves _ _ _ _ _ Hpost) in Hres.
    by injection Hres as <-. }
  assert (id item ∈ ids) as Hitem.
  { rewrite <- Hperm. apply list_elem_of_fmap. eauto. }
  split.
  - intros Hik Hid. apply (Hentry i); [|done].
    unfold ids. rewrite list_lookup_delete_lt by done.
    apply batchOf_ids_lookup. lia.
  - intros Hki Hid. apply (Hentry (S i)); [|done].
    unfold ids. rewrite list_lookup_delete_ge by done.
    apply batchOf_ids_lookup.
    assert (id item ∈ req_id <$> batchOf seed rpcCallsData) as Hall.
    { by eapply list_elem_of_delete_inv. }
    apply list_elem_of_lookup in Hall as [j Hj].
    pose proof (lookup_lt_Some _ _ _ Hj) as Hjlt.
    rewrite length_fmap, batchOf_length in Hjlt.
    rewrite batchOf_ids_lookup in Hj by done. injection Hj as Hj. lia.
Qed.

End RpcBatchOrder.

Lemma rpcBatchRequest_order_independent_witness :
  Web3Public.rpcBatchRequest Examples.reversingClient Examples.node 1700000000000
    Examples.threeCalls
  = Web3Public.rpcBatchRequest Examples.inOrderClient Examples.node 1700000000000
      Examples.threeCalls.
Proof.
  apply (rpcBatchRequest_order_independent
           Examples.reversingClient Examples.inOrderClient Examples.node
           1700000000000 Examples.threeCalls
           (reverse (Examples.answer
                       <$> Web3Public.batchOf 1700000000000 Examples.threeCalls))
           (Examples.answer
              <$> Web3Public.batchOf 1700000000000 Examples.threeCalls)).
  - reflexivity.
  - reflexivity.
  - apply reverse_Permutation.
  - assert (Web3Public.id
              <$> reverse (Examples.answer
                             <$> Web3Public.batchOf 1700000000000 Examples.threeCalls)
            ≡ₚ Web3Public.req_id
                 <$> Web3Public.batchOf 1700000000000 Examples.threeCalls) as Hperm
      by exact (reverse_Permutation
                  (Web3Public.req_id
                     <$> Web3Public.batchOf 1700000000000 Examples.threeCalls)).
    rewrite Hperm. apply batchOf_ids_NoDup.
Defined.

Lemma rpcBatchRequest_missing_response_shifts_witness :
  let seed := 1700000000000 in
  let batch := Web3Public.batchOf seed Examples.threeCalls in
  let response := reverse (Examples.answer <$> delete 1%nat batch) in
  ∃ results,
    Web3Public.rpcBatchRequest Examples.droppingClient Examples.node seed
      Examples.threeCalls = Ok results
    ∧ S (length results) = length Examples.threeCalls
    ∧ ∀ (i : nat) item,
        item ∈ response →
        ((i < 1)%nat → Web3Public.id item = seed + Z.of_nat i →
           results !! i = Some (Web3Public.responseValue item))
        ∧ ((1 ≤ i)%nat → Web3Public.id item = seed + Z.of_nat (S i) →
             results !! i = Some (Web3Public.responseValue item)).
Proof.
  intros seed batch response.
  apply (rpcBatchRequest_missing_response_shifts Examples.droppingClient
           Examples.node seed Examples.threeCalls response 1).
  - reflexivity.
  - simpl. lia.
  - exact (reverse_Permutation
             (delete 1%nat (Web3Public.req_id <$> batch))).
Defined.

(** ** batchEstimatedGas, multicallContractMethod and getTokensBalances *)
Section Web3PublicFurther.
Import Web3Public.

Lemma estimateGasCallsData_length w contractAddress fromAddress callsData :
  length (estimateGasCallsData w contractAddress fromAddress callsData)
  = length callsData.
Proof. unfold estimateGasCallsData. by rewrite length_imap, length_fmap. Qed.

(** X3.  When the transport delivers the responses to all its requests,
    batchEstimatedGas submits for call [i] an eth_estimateGas request with id
    seed + i that carries the sender, the contract, the encoded call and,
    only when the call has a value, its value in hexadecimal; the result has
    one entry per call, entry [i] being the estimate the node gave for call
    [i], or null when the node reported an error or an empty estimate. *)
Theorem batchEstimatedGas_aligned (httpClient : HttpClient string) (w : Web3)
    (seed : Z) contractAddress fromAddress callsData response :
  post httpClient (host w)
    (batchOf seed (estimateGasCallsData w contractAddress fromAddress callsData))
  = Ok response →
  id <$> response
  ≡ₚ req_id <$> batchOf seed
                  (estimateGasCallsData w contractAddress fromAddress callsData) →
  ∃ gases,
    batchEstimatedGas httpClient w seed contractAddress fromAddress callsData
    = Ok gases
    ∧ length gases = length callsData
    ∧ ∀ (i : nat) call,
        callsData !! i = Some call →
        batchOf seed (estimateGasCallsData w contractAddress fromAddress callsData)
          !! i
        = Some {| req_id := seed + Z.of_nat i;
                  jsonrpc := "2.0";
                  method := "eth_estimateGas";
                  req_params :=
                    [ {| from := fromAddress;
                         to := contractAddress;
                         data := encodeABI w (contractMethod call) (params call);
                         rpc_value :=
                           (λ v, String.append "0x" (toString16 w v))
                             <$> value call |} ] |}
        ∧ ∀ item, item ∈ response → id item = seed + Z.of_nat i →
            gases !! i = Some (estimatedGasOf w (responseValue item)).
Proof.
  intros Hpost Hperm.
  destruct (rpcBatchRequest_entries httpClient w seed _ response Hpost Hperm)
    as (results & Hres & Hlen & Hpos).
  unfold batchEstimatedGas. rewrite Hres. eexists. split; [done|]. split.
  { by rewrite length_fmap, Hlen, estimateGasCallsData_length. }
  intros i call Hcall.
  assert (batchOf seed (estimateGasCallsData w contractAddress fromAddress callsData)
            !! i
          = Some {| req_id := seed + Z.of_nat i;
                    jsonrpc := "2.0";
                    method := "eth_estimateGas";
                    req_params :=
                      [ {| from := fromAddress;
                           to := contractAddress;
                           data := encodeABI w (contractMethod call) (params call);
                           rpc_value :=
                             (λ v, String.append "0x" (toString16 w v))
                               <$> value call |} ] |}) as Hreq.
  { unfold batchOf, estimateGasCallsData.
    by rewrite !list_lookup_imap, list_lookup_fmap, Hcall. }
  split; [done|].
  intros item Hin Hid. rewrite list_lookup_fmap.
  by rewrite (Hpos i _ item Hreq Hin Hid).
Qed.




(** X5.  Without a native-coin address in the list, one multicall is the
    only request; when it goes through, the result has one balance per
    address, in order, a sub-call that failed being reported as balance 0. *)
Theorem getTokensBalances_tokens_only (w : Web3) (order : JS.Settles)
    (address : string) (tokensAddresses : list string) :
  (∀ a, a ∈ tokensAddresses → isNativeAddress w a = false) →
  call_rejects w = None →
  issued (getTokensBalances w order address tokensAddresses)
  = [MulticallRequest (balanceOfCall w address <$> tokensAddresses)]
  ∧ ∃ balances,
      settled (getTokensBalances w order address tokensAddresses) = Ok balances
      ∧ length balances = length tokensAddresses
      ∧ ∀ (j : nat) tokenAddress,
          tokensAddresses !! j = Some tokenAddress →
          (success (eth_call w (balanceOfCall w address tokenAddress)) = true →
             balances !! j
             = Some (toBigNumber w
                       (returnData
                          (eth_call w (balanceOfCall w address tokenAddress)))))
          ∧ (success (eth_call w (balanceOfCall w address tokenAddress)) = false →
               balances !! j = Some BigNumber.zero).
Proof.
  intros Hnone Hcall. apply findIndex_None in Hnone.
  unfold getTokensBalances, multicall. rewrite Hnone, Hcall. split; [done|].
  eexists. split; [done|]. rewrite tokensBalancesOf_tryAggregate.
  split; [by rewrite length_fmap|].
  intros j tokenAddress Hj. rewrite list_lookup_fmap, Hj. simpl.
  split; by intros ->.
Qed.

(** X6.  With a native-coin address in the list, getTokensBalances rejects
    as soon as one of its two requests does: with the failure of that request
    when only one fails, and with the failure of the request that settles
    first when both fail. *)
Theorem getTokensBalances_rejections (w : Web3) (address : string)
    (tokensAddresses : list string) native :
  native ∈ tokensAddresses →
  isNativeAddress w native = true →
  (∀ order e balance,
     call_rejects w = Some e → eth_getBalance w address = Ok balance →
     settled (getTokensBalances w order address tokensAddresses) = Err e)
  ∧ (∀ order e,
       call_rejects w = None → eth_getBalance w address = Err e →
       settled (getTokensBalances w order address tokensAddresses) = Err e)
  ∧ (∀ e0 e1,
       call_rejects w = Some e0 → eth_getBalance w address = Err e1 →
       settled (getTokensBalances w JS.FirstSettlesFirst address tokensAddresses)
       = Err e0
       ∧ settled (getTokensBalances w JS.SecondSettlesFirst address tokensAddresses)
         = Err e1).
Proof.
  intros Hin Hnative.
  destruct (findIndex_is_Some _ _ _ Hin Hnative) as [i Hfind].
  unfold getTokensBalances, multicall, getBalance. rewrite Hfind. simpl.
  repeat split; intros; repeat match goal with H : _ = _ |- _ => rewrite H end;
    by try destruct order.
Qed.


End Web3PublicFurther.

Lemma batchEstimatedGas_aligned_witness :
  let seed := 1700000000000 in
  let batch :=
    Web3Public.batchOf seed
      (Web3Public.estimateGasCallsData Examples.node Examples.USDT Examples.wallet
         Examples.twoBatchCalls) in
  let response := reverse (Examples.answer <$> batch) in
  ∃ gases,
    Web3Public.batchEstimatedGas Examples.reversingClient Examples.node seed
      Examples.USDT Examples.wallet Examples.twoBatchCalls = Ok gases
    ∧ length gases = length Examples.twoBatchCalls
    ∧ ∀ (i : nat) call,
        Examples.twoBatchCalls !! i = Some call →
        batch !! i
        = Some {| Web3Public.req_id := seed + Z.of_nat i;
                  Web3Public.jsonrpc := "2.0";
                  Web3Public.method := "eth_estimateGas";
                  Web3Public.req_params :=
                    [ {| Web3Public.from := Examples.wallet;
                         Web3Public.to := Examples.USDT;
                         Web3Public.data :=
                           Web3Public.encodeABI Examples.node
                             (Web3Public.contractMethod call)
                             (Web3Public.params call);
                         Web3Public.rpc_value :=
                           (λ v, String.append "0x"
                                   (Web3Public.toString16 Examples.node v))
                             <$> Web3Public.value call |} ] |}
        ∧ ∀ item, item ∈ response → Web3Public.id item = seed + Z.of_nat i →
            gases !! i
            = Some (Web3Public.estimatedGasOf Examples.node
                      (Web3Public.responseValue item)).
Proof.
  intros seed batch response.
  apply (batchEstimatedGas_aligned Examples.reversingClient Examples.node seed
           Examples.USDT Examples.wallet Examples.twoBatchCalls response).
  - reflexivity.
  - exact (reverse_Permutation (Web3Public.req_id <$> batch)).
Defined.

Lemma getTokensBalances_tokens_only_witness :
  let tokensAddresses := [Examples.USDT; Examples.DAI] in
  Web3Public.issued
    (Web3Public.getTokensBalances Examples.node JS.FirstSettlesFirst
       Examples.wallet tokensAddresses)
  = [Web3Public.MulticallRequest
       (Web3Public.balanceOfCall Examples.node Examples.wallet <$> tokensAddresses)]
  ∧ ∃ balances,
      Web3Public.settled
        (Web3Public.getTokensBalances Examples.node JS.FirstSettlesFirst
           Examples.wallet tokensAddresses) = Ok balances
      ∧ length balances = length tokensAddresses
      ∧ ∀ (j : nat) tokenAddress,
          tokensAddresses !! j = Some tokenAddress →
          (Web3Public.success
             (Web3Public.eth_call Examples.node
                (Web3Public.balanceOfCall Examples.node Examples.wallet tokenAddress))
           = true →
           balances !! j
           = Some (Web3Public.toBigNumber Examples.node
                     (Web3Public.returnData
                        (Web3Public.eth_call Examples.node
                           (Web3Public.balanceOfCall Examples.node Examples.wallet
                              tokenAddress)))))
          ∧ (Web3Public.success
               (Web3Public.eth_call Examples.node
                  (Web3Public.balanceOfCall Examples.node Examples.wallet
                     tokenAddress))
             = false →
             balances !! j = Some BigNumber.zero).
Proof.
  intros tokensAddresses.
  apply (getTokensBalances_tokens_only Examples.node JS.FirstSettlesFirst
           Examples.wallet tokensAddresses).
  - intros a Ha. unfold tokensAddresses in Ha.
    repeat (apply elem_of_cons in Ha as [->|Ha]); [reflexivity..|].
    by apply elem_of_nil in Ha.
  - reflexivity.
Defined.

Lemma getTokensBalances_rejections_witness :
  let tokensAddresses :=
    [Examples.USDT; Examples.NATIVE_TOKEN_ADDRESS; Examples.DAI] in
  Web3Public.settled
    (Web3Public.getTokensBalances Examples.offlineNode JS.FirstSettlesFirst
       Examples.wallet tokensAddresses)
  = Err (NetworkError "call timed out")
  ∧ Web3Public.settled
      (Web3Public.getTokensBalances Examples.offlineNode JS.SecondSettlesFirst
         Examples.wallet tokensAddresses)
    = Err (NetworkError "getBalance timed out").
Proof.
  intros tokensAddresses.
  refine (proj2 (proj2 (getTokensBalances_rejections Examples.offlineNode
                          Examples.wallet tokensAddresses
                          Examples.NATIVE_TOKEN_ADDRESS _ eq_refl))
            (NetworkError "call timed out") (NetworkError "getBalance timed out")
            eq_refl eq_refl).
  right; left.
Defined.


(** ** calculateTrade: validation and the origin of the ranked quotes *)
Section OrchestratorFurther.
Import CrossChainManager.

(** X8.  calculateTrade throws the same-blockchain error, before any call,
    exactly when the destination is a Token instance on the blockchain of the
    source; in every other case its first call is the price-token lookup, and
    when that lookup fails its error is what calculateTrade throws, no
    provider having been called. *)
Theorem calculateTrade_validation env fromToken fromAmount toToken options :
  (calculateTrade env fromToken fromAmount toToken options
   = ([], Err sameBlockchain)
   ↔ instanceofToken toToken = true
     ∧ inputBlockchain fromToken = inputBlockchain toToken)
  ∧ (instanceofToken toToken
     && bool_decide (inputBlockchain fromToken = inputBlockchain toToken) = false →
     (∃ calls,
        (calculateTrade env fromToken fromAmount toToken options).1
        = GetPriceTokensCall fromToken fromAmount toToken :: calls)
     ∧ ∀ e,
         getPriceTokensFromInputTokens env fromToken fromAmount toToken = Err e →
         calculateTrade env fromToken fromAmount toToken options
         = ([GetPriceTokensCall fromToken fromAmount toToken], Err e)).
Proof.
  assert (instanceofToken toToken
          && bool_decide (inputBlockchain fromToken = inputBlockchain toToken) = false →
          (∃ calls,
             (calculateTrade env fromToken fromAmount toToken options).1
             = GetPriceTokensCall fromToken fromAmount toToken :: calls)
          ∧ ∀ e,
              getPriceTokensFromInputTokens env fromToken fromAmount toToken = Err e →
              calculateTrade env fromToken fromAmount toToken options
              = ([GetPriceTokensCall fromToken fromAmount toToken], Err e)) as Hpass.
  { intros Hvalid. unfold calculateTrade. rewrite Hvalid.
    unfold bind, emit, liftResult. simpl.
    destruct (getPriceTokensFromInputTokens env fromToken fromAmount toToken)
      as [tokens|e]; simpl.
    - destruct (calculateBestTradeFromTokens _ _ _ _). simpl.
      split; [eauto|done].
    - split; [eauto|]. by intros e' [= <-]. }
  split; [|exact Hpass]. split.
  - intros Hthrow.
    destruct (instanceofToken toToken
              && bool_decide (inputBlockchain fromToken = inputBlockchain toToken))
      eqn:Hvalid.
    + apply andb_prop in Hvalid as [Hinst Hsame].
      by apply bool_decide_eq_true in Hsame.
    + destruct (Hpass eq_refl) as [[calls Hcalls] _].
      rewrite Hthrow in Hcalls. discriminate Hcalls.
  - intros [Hinst Hsame]. unfold calculateTrade.
    by rewrite Hinst, bool_decide_eq_true_2.
Qed.

Lemma calculationResults_types_sublist env options from to providers :
  tradeType <$> calculationResults env options from to providers
  `sublist_of` providers.
Proof.
  unfold calculationResults. induction providers as [|p ps IH]; simpl; [done|].
  destruct (calculationResult p _) as [w|] eqn:Hw; simpl.
  - assert (tradeType w = p) as ->.
    { unfold calculationResult in Hw.
      destruct (settledCalculation env p from to (req_timeout options))
        as [[wt|]| |]; try done. by injection Hw as <-. }
    by constructor.
  - by constructor.
Qed.

Lemma selectedProviders_sublist env options from to :
  selectedProviders env options from to `sublist_of` tradeProviders.
Proof.
  unfold selectedProviders. generalize tradeProviders.
  induction l as [|x l IH]; simpl; [done|].
  destruct (providerSelected _ _ _ _ x); by constructor.
Qed.

Lemma tradeProviders_NoDup : NoDup tradeProviders.
Proof.
  unfold tradeProviders.
  repeat (constructor;
          [intros H; repeat (apply elem_of_cons in H as [H|H]; [discriminate H|]);
           by apply elem_of_nil in H|]).
  constructor.
Qed.

Lemma selectedProviders_NoDup env options from to :
  NoDup (selectedProviders env options from to).
Proof.
  eapply sublist_NoDup; [apply tradeProviders_NoDup|apply selectedProviders_sublist].
Qed.

(** X9.  A ranked result holds at most one quote per selected provider and
    none from any other: the trade types of its quotes are pairwise distinct
    and selected, and every quote is the answer its provider resolved with,
    under the type of that provider. *)
Theorem ranked_quotes_come_from_selected_providers env from to options ranked :
  (calculateBestTradeFromTokens env from to options).2 = Ok ranked →
  NoDup (tradeType <$> ranked)
  ∧ (length ranked ≤ length (selectedProviders env options from to))%nat
  ∧ ∀ w, w ∈ ranked →
      tradeType w ∈ selectedProviders env options from to
      ∧ ∃ wrappedTrade,
          settledCalculation env (tradeType w) from to (req_timeout options)
          = Resolved (Some wrappedTrade)
          ∧ trade w = p_trade wrappedTrade
          ∧ error w = p_error wrappedTrade.
Proof.
  rewrite calculateBestTradeFromTokens_unfold.
  pose proof (calculationResults_types_sublist env options from to
                (selectedProviders env options from to)) as Hsub.
  pose proof (selectedProviders_NoDup env options from to) as Hnd.
  assert (∀ w, w ∈ calculationResults env options from to
                     (selectedProviders env options from to) →
            tradeType w ∈ selectedProviders env options from to
            ∧ ∃ wrappedTrade,
                settledCalculation env (tradeType w) from to (req_timeout options)
                = Resolved (Some wrappedTrade)
                ∧ trade w = p_trade wrappedTrade
                ∧ error w = p_error wrappedTrade) as Hanswers.
  { intros w (type & wt & Htype & Hres & ->)%calculationResults_elem_of. simpl.
    eauto. }
  destruct (selectedProviders env options from to) as [|p ps] eqn:Hp; [done|].
  cbv beta iota. cbn [snd].
  destruct (calculationResults env options from to (p :: ps)) as [|r rs] eqn:Hr;
    [done|].
  intros [= <-]. split; [|split].
  - rewrite rank_perm. eapply sublist_NoDup; [exact Hnd|exact Hsub].
  - rewrite rank_perm. apply sublist_length in Hsub.
    rewrite length_fmap in Hsub. lia.
  - intros w Hw. rewrite rank_perm in Hw. by apply Hanswers.
Qed.

End OrchestratorFurther.

Lemma ranked_quotes_come_from_selected_providers_witness :
  let options := CrossChainManager.getFullOptions None in
  let ranked :=
    CrossChainManager.rank
      [Examples.wrap CrossChainManager.CELER Examples.celerTrade;
       Examples.wrap CrossChainManager.LIFI Examples.lifiTrade] in
  NoDup (CrossChainManager.tradeType <$> ranked)
  ∧ (length ranked
     ≤ length (CrossChainManager.selectedProviders Examples.market options
                 Examples.source Examples.destination))%nat
  ∧ ∀ w, w ∈ ranked →
      CrossChainManager.tradeType w
      ∈ CrossChainManager.selectedProviders Examples.market options Examples.source
          Examples.destination
      ∧ ∃ wrappedTrade,
          CrossChainManager.settledCalculation Examples.market
            (CrossChainManager.tradeType w) Examples.source Examples.destination
            (CrossChainManager.req_timeout options)
          = CrossChainManager.Resolved (Some wrappedTrade)
          ∧ CrossChainManager.trade w = CrossChainManager.p_trade wrappedTrade
          ∧ CrossChainManager.error w = CrossChainManager.p_error wrappedTrade.
Proof.
  intros options ranked.
  apply (ranked_quotes_come_from_selected_providers Examples.market Examples.source
           Examples.destination options ranked).
  reflexivity.
Defined.

(** ** The ranker: quotes without a trade *)
Section RankingFurther.
Import CrossChainManager.

Lemma StronglySorted_lookup {A} (R : relation A) l (i j : nat) x y :
  StronglySorted R l → (i < j)%nat → l !! i = Some x → l !! j = Some y → R x y.
Proof.
  intros Hs. revert i j. induction Hs as [|a l Hs IH Ha]; intros i j Hij Hi Hj.
  { done. }
  destruct j as [|j]; [lia|]. destruct i as [|i]; simpl in *.
  - injection Hi as <-. rewrite Forall_forall in Ha. apply Ha.
    by eapply list_elem_of_lookup_2.
  - apply (IH i j); [lia|done..].
Qed.

(** The ratio of a quote with a trade and a positive output amount is a
    finite number. *)
Lemma getProviderRatio_finite w t fromTokenPrice :
  BigNumber.isPositiveFinite fromTokenPrice = true →
  wellFormedQuote w = true →
  trade w = Some t →
  BigNumber.isPositiveFinite (tokenAmount (trade_to t)) = true →
  ∃ q, getProviderRatio (trade w) fromTokenPrice = BigNumber.Finite q.
Proof.
  destruct fromTokenPrice as [| |p]; try done. intros _ Hwf Htrade.
  unfold wellFormedQuote in Hwf. rewrite Htrade in *. simpl.
  assert (∀ x a, (0 <? Qnum a) = true →
            ∃ q, BigNumber.dividedBy (BigNumber.Finite x) (BigNumber.Finite a)
                 = BigNumber.Finite q) as Hdiv.
  { intros x a Ha%Z.ltb_lt. simpl. unfold BigNumber.isZero.
    rewrite (proj2 (Z.eqb_neq (Qnum a) 0)) by lia. eauto. }
  destruct t as [f o|f o fee|f o|f o]; simpl;
    destruct (tokenAmount o) as [| |a]; try done; intros Ha; try by apply Hdiv.
  apply andb_prop in Hwf as [_ Hfee].
  destruct (price (token fee)) as [| |c]; try done. by apply Hdiv.
Qed.

(** X10.  With a positive reference price and well-formed amounts, a quote
    that carries a trade with a positive output amount is ranked before every
    quote that carries no trade. *)
Theorem tradeless_quotes_rank_last wrappedTrades fromTokenPrice (i j : nat) s f t :
  fromTokenPriceOf wrappedTrades = Some fromTokenPrice →
  BigNumber.isPositiveFinite fromTokenPrice = true →
  Forall (λ w, wellFormedQuote w = true) wrappedTrades →
  rank wrappedTrades !! i = Some s →
  rank wrappedTrades !! j = Some f →
  trade s = Some t →
  BigNumber.isPositiveFinite (tokenAmount (trade_to t)) = true →
  trade f = None →
  (i < j)%nat.
Proof.
  intros Hprice Hpos Hwf Hi Hj Ht Hamount Hf.
  assert (rank wrappedTrades
          = JS.Array_sort (ratioComparator fromTokenPrice) wrappedTrades) as Hrank.
  { unfold rank. by rewrite Hprice. }
  assert (Forall (λ w, BigNumber.isNaN (getProviderRatio (trade w) fromTokenPrice)
                       = false) wrappedTrades) as Hnum.
  { eapply Forall_impl; [exact Hwf|]. intros w Hw. by apply getProviderRatio_not_NaN. }
  pose proof (Array_sort_sorted _ _ (ratioComparator_consistent fromTokenPrice)
                wrappedTrades Hnum) as Hsorted.
  rewrite <- Hrank in Hsorted.
  assert (s ∈ wrappedTrades) as Hs.
  { rewrite <- rank_perm. by eapply list_elem_of_lookup_2. }
  rewrite Forall_forall in Hwf.
  destruct (getProviderRatio_finite s t fromTokenPrice Hpos (Hwf s Hs) Ht Hamount)
    as [q Hq].
  destruct (Nat.lt_trichotomy i j) as [Hlt|[->|Hgt]]; [done| |].
  - rewrite Hi in Hj. injection Hj as ->. congruence.
  - pose proof (StronglySorted_lookup _ _ j i f s Hsorted Hgt Hj Hi) as Hfs.
    unfold sortedBefore, ratioComparator in Hfs. rewrite Hq, Hf in Hfs.
    simpl in Hfs. unfold compareNumbers in Hfs. simpl in Hfs. lia.
Qed.

End RankingFurther.

Lemma tradeless_quotes_rank_last_witness :
  let quotes :=
    [Examples.wrap CrossChainManager.RUBIC Examples.failedTrade;
     Examples.wrap CrossChainManager.CELER Examples.celerTrade;
     Examples.wrap CrossChainManager.LIFI Examples.lifiTrade] in
  CrossChainManager.rank quotes !! 1%nat
  = Some (Examples.wrap CrossChainManager.CELER Examples.celerTrade)
  ∧ CrossChainManager.rank quotes !! 2%nat
    = Some (Examples.wrap CrossChainManager.RUBIC Examples.failedTrade)
  ∧ (1 < 2)%nat.
Proof.
  intros quotes.
  assert (CrossChainManager.rank quotes !! 1%nat
          = Some (Examples.wrap CrossChainManager.CELER Examples.celerTrade)) as H1
    by (by vm_compute).
  assert (CrossChainManager.rank quotes !! 2%nat
          = Some (Examples.wrap CrossChainManager.RUBIC Examples.failedTrade)) as H2
    by (by vm_compute).
  assert (Forall (λ w, CrossChainManager.wellFormedQuote w = true) quotes) as Hwf
    by (repeat constructor).
  exact (conj H1 (conj H2
           (tradeless_quotes_rank_last quotes (BigNumber.Finite 1) 1 2
              (Examples.wrap CrossChainManager.CELER Examples.celerTrade)
              (Examples.wrap CrossChainManager.RUBIC Examples.failedTrade)
              _ eq_refl eq_refl Hwf H1 H2 eq_refl eq_refl eq_refl))).
Defined.

(** ** getTransactionByHash, getTransactionGasFee and the gas price *)
Section TransactionsAndGas.
Import Web3Public.

(** The body of getTransactionByHash, as the source has it. *)
Lemma getTransactionByHash_eq eth hash attempt attemptsLimit delay k :
  getTransactionByHash eth hash attempt attemptsLimit delay k
  = if JS.orElse attemptsLimit 10 <=? JS.orElse attempt 0 then givenUp
    else match eth_getTransaction eth hash k with
         | Ok None =>
             afterWait (JS.orElse delay 500)
               (getTransactionByHash eth hash (Some (JS.orElse attempt 0 + 1))
                  None None (S k))
         | answer => settledAtOnce answer
         end.
Proof.
  funelim (getTransactionByHash eth hash attempt attemptsLimit delay k).
  - by rewrite e.
  - by rewrite Hlimit, Heq.
  - by rewrite Hlimit, Heq.
  - by rewrite Hlimit, Heq.
Qed.

Lemma orElse_succ a : JS.orElse (Some (a + 1)) 0 = a + 1.
Proof. unfold JS.orElse. by destruct (a + 1). Qed.

(** A retry (a call without limit and delay) that is answered with null
    throughout makes one lookup per attempt left up to 10. *)
Lemma retry_gives_up eth hash n : ∀ attempt k,
  Z.to_nat (10 - JS.orElse attempt 0) = n →
  (∀ j, (j < n)%nat → eth_getTransaction eth hash (k + j) = Ok None) →
  getTransactionByHash eth hash attempt None None k
  = {| lookups := n; waits := replicate n 500; outcome := Ok None |}.
Proof.
  induction n as [|n IH]; intros attempt k Hn Hnull;
    rewrite getTransactionByHash_eq; cbn [JS.orElse].
  - rewrite (proj2 (Z.leb_le 10 (JS.orElse attempt 0))) by lia. done.
  - rewrite (proj2 (Z.leb_gt 10 (JS.orElse attempt 0))) by lia.
    pose proof (Hnull 0%nat ltac:(lia)) as H0. rewrite Nat.add_0_r in H0.
    rewrite H0. rewrite (IH (Some (JS.orElse attempt 0 + 1)) (S k)).
    + done.
    + rewrite orElse_succ. lia.
    + intros j Hj. rewrite <- (Hnull (S j)) by lia. f_equal. lia.
Qed.

(** A retry whose [n]-th lookup is the first one not answered with null
    settles with that answer. *)
Lemma retry_settles eth hash answer n : ∀ attempt k,
  (n < Z.to_nat (10 - JS.orElse attempt 0))%nat →
  (∀ j, (j < n)%nat → eth_getTransaction eth hash (k + j) = Ok None) →
  eth_getTransaction eth hash (k + n) = answer → answer ≠ Ok None →
  getTransactionByHash eth hash attempt None None k
  = {| lookups := S n; waits := replicate n 500; outcome := answer |}.
Proof.
  induction n as [|n IH]; intros attempt k Hn Hnull Hanswer Hsettled;
    rewrite getTransactionByHash_eq; cbn [JS.orElse];
    rewrite (proj2 (Z.leb_gt 10 (JS.orElse attempt 0))) by lia.
  - rewrite Nat.add_0_r in Hanswer. rewrite Hanswer.
    by destruct answer as [[t|]|e].
  - pose proof (Hnull 0%nat ltac:(lia)) as H0. rewrite Nat.add_0_r in H0.
    rewrite H0. rewrite (IH (Some (JS.orElse attempt 0 + 1)) (S k)).
    + done.
    + rewrite orElse_succ. lia.
    + intros j Hj. rewrite <- (Hnull (S j)) by lia. f_equal. lia.
    + rewrite <- Hanswer. f_equal. lia.
    + done.
Qed.

(** What the polling of getTransactionGasFee (no attempt, limit or delay
    given) settles with. *)
Lemma polling_outcome eth hash (n : nat) answer :
  (n ≤ 9)%nat →
  (∀ j, (j < n)%nat → eth_getTransaction eth hash j = Ok None) →
  eth_getTransaction eth hash n = answer → answer ≠ Ok None →
  outcome (getTransactionByHash eth hash None None None 0) = answer.
Proof.
  intros Hn Hnull Hanswer Hsettled.
  rewrite (retry_settles eth hash answer n None 0%nat); [done| |done..].
  simpl. lia.
Qed.

Lemma polling_outcome_null eth hash :
  (∀ j, (j ≤ 9)%nat → eth_getTransaction eth hash j = Ok None) →
  outcome (getTransactionByHash eth hash None None None 0) = Ok None.
Proof.
  intros Hnull.
  rewrite (retry_gives_up eth hash 10 None 0%nat); [done|done|].
  intros j Hj. apply Hnull. lia.
Qed.

(** X12.  A call whose attempt number has reached the limit makes no lookup
    and resolves with null.  Otherwise, when the node never knows the
    transaction, the call waits [delay] (500 ms by default) after its first
    lookup, and from then on the caller's limit and delay no longer count:
    every later timer is 500 ms and the lookups go on until the attempt
    number reaches 10, whatever [attemptsLimit] was. *)
Theorem getTransactionByHash_gives_up eth hash attempt attemptsLimit delay k :
  (JS.orElse attemptsLimit 10 ≤ JS.orElse attempt 0 →
   getTransactionByHash eth hash attempt attemptsLimit delay k
   = {| lookups := 0; waits := []; outcome := Ok None |})
  ∧ (JS.orElse attempt 0 < JS.orElse attemptsLimit 10 →
     (∀ j, (j ≤ Z.to_nat (9 - JS.orElse attempt 0))%nat →
        eth_getTransaction eth hash (k + j) = Ok None) →
     getTransactionByHash eth hash attempt attemptsLimit delay k
     = {| lookups := S (Z.to_nat (9 - JS.orElse attempt 0));
          waits := JS.orElse delay 500
                   :: replicate (Z.to_nat (9 - JS.orElse attempt 0)) 500;
          outcome := Ok None |}).
Proof.
  split.
  - intros Hlimit. rewrite getTransactionByHash_eq.
    by rewrite (proj2 (Z.leb_le _ _) Hlimit).
  - intros Hlimit Hnull. rewrite getTransactionByHash_eq.
    rewrite (proj2 (Z.leb_gt _ _) Hlimit).
    pose proof (Hnull 0%nat ltac:(lia)) as H0. rewrite Nat.add_0_r in H0.
    rewrite H0.
    rewrite (retry_gives_up eth hash (Z.to_nat (9 - JS.orElse attempt 0))).
    + done.
    + rewrite orElse_succ. f_equal. lia.
    + intros j Hj. rewrite <- (Hnull (S j)) by lia. f_equal. lia.
Qed.

(** X13.  When the [n]-th repeated lookup is the first one that is not
    answered with null (the transaction, or a failure of the request) and
    the attempts reach that far, the call settles with that answer after
    [n + 1] lookups, having waited [delay] once and 500 ms each time after. *)
Theorem getTransactionByHash_settles eth hash attempt attemptsLimit delay k
    (n : nat) answer :
  JS.orElse attempt 0 < JS.orElse attemptsLimit 10 →
  (n ≤ Z.to_nat (9 - JS.orElse attempt 0))%nat →
  (∀ j, (j < n)%nat → eth_getTransaction eth hash (k + j) = Ok None) →
  eth_getTransaction eth hash (k + n) = answer →
  answer ≠ Ok None →
  getTransactionByHash eth hash attempt attemptsLimit delay k
  = {| lookups := S n;
       waits := match n with
                | O => []
                | S n' => JS.orElse delay 500 :: replicate n' 500
                end;
       outcome := answer |}.
Proof.
  intros Hlimit Hn Hnull Hanswer Hsettled. rewrite getTransactionByHash_eq.
  rewrite (proj2 (Z.leb_gt _ _) Hlimit).
  destruct n as [|n].
  - rewrite Nat.add_0_r in Hanswer. rewrite Hanswer.
    by destruct answer as [[t|]|e].
  - pose proof (Hnull 0%nat ltac:(lia)) as H0. rewrite Nat.add_0_r in H0.
    rewrite H0.
    rewrite (retry_settles eth hash answer n (Some (JS.orElse attempt 0 + 1)) (S k)).
    + done.
    + rewrite orElse_succ. lia.
    + intros j Hj. rewrite <- (Hnull (S j)) by lia. f_equal. lia.
    + rewrite <- Hanswer. f_equal. lia.
    + done.
Qed.

(** The product of two integers is computed exactly. *)
Lemma Qred_inject_Z z : Qred (inject_Z z) = inject_Z z.
Proof.
  pose proof (Qred_correct (inject_Z z)) as Heq.
  pose proof (gcd_Qred (inject_Z z)) as Hgcd.
  destruct (Qred (inject_Z z)) as [n d]. unfold Qeq, inject_Z in *. simpl in *.
  assert (Z.pos d = 1) as Hd.
  { rewrite Z.mul_1_r in Heq. rewrite Heq, Z.gcd_comm, Z.mul_comm in Hgcd.
    rewrite Z.gcd_mul_diag_l in Hgcd; lia. }
  injection Hd as ->. f_equal. lia.
Qed.

Lemma multipliedBy_ofZ a b :
  BigNumber.multipliedBy (BigNumber.ofZ a) (BigNumber.ofZ b) = BigNumber.ofZ (a * b).
Proof.
  unfold BigNumber.multipliedBy, BigNumber.ofZ. f_equal.
  rewrite <- (Qred_inject_Z (a * b)). apply Qred_complete.
  unfold Qeq, inject_Z. simpl. lia.
Qed.

(** X14.  getTransactionGasFee resolves with the gas price of the
    transaction times the gas used of its receipt, exactly, when one of the
    ten lookups of the polling finds the transaction and the receipt exists;
    it resolves with null when the ten lookups find nothing, even if the
    receipt exists, and when the receipt is missing; a failing lookup makes
    it reject. *)
Theorem getTransactionGasFee_outcomes eth hash :
  (∀ (n : nat) transaction receipt,
     (n ≤ 9)%nat →
     (∀ j, (j < n)%nat → eth_getTransaction eth hash j = Ok None) →
     eth_getTransaction eth hash n = Ok (Some transaction) →
     eth_getTransactionReceipt eth hash = Ok (Some receipt) →
     getTransactionGasFee eth hash
     = Ok (Some (BigNumber.Finite
                   (inject_Z (gasPrice transaction * gasUsed receipt)))))
  ∧ (∀ receipt,
       (∀ j, (j ≤ 9)%nat → eth_getTransaction eth hash j = Ok None) →
       eth_getTransactionReceipt eth hash = Ok receipt →
       getTransactionGasFee eth hash = Ok None)
  ∧ (∀ (n : nat) transaction,
       (n ≤ 9)%nat →
       (∀ j, (j < n)%nat → eth_getTransaction eth hash j = Ok None) →
       eth_getTransaction eth hash n = Ok (Some transaction) →
       eth_getTransactionReceipt eth hash = Ok None →
       getTransactionGasFee eth hash = Ok None)
  ∧ (∀ (n : nat) e,
       (n ≤ 9)%nat →
       (∀ j, (j < n)%nat → eth_getTransaction eth hash j = Ok None) →
       eth_getTransaction eth hash n = Err e →
       getTransactionGasFee eth hash = Err e).
Proof.
  assert (∀ (n : nat) answer,
            (n ≤ 9)%nat →
            (∀ j, (j < n)%nat → eth_getTransaction eth hash j = Ok None) →
            eth_getTransaction eth hash n = answer → answer ≠ Ok None →
            outcome (getTransactionByHash eth hash None None None 0) = answer)
    as Hsettles.
  { intros n answer. apply polling_outcome. }
  assert ((∀ j, (j ≤ 9)%nat → eth_getTransaction eth hash j = Ok None) →
          outcome (getTransactionByHash eth hash None None None 0) = Ok None)
    as Hnever.
  { apply polling_outcome_null. }
  unfold getTransactionGasFee. repeat split.
  - intros n transaction receipt Hn Hnull Hfound Hreceipt.
    rewrite (Hsettles n (Ok (Some transaction))) by done.
    rewrite Hreceipt. cbv zeta. by rewrite multipliedBy_ofZ.
  - intros receipt Hnull Hreceipt. rewrite Hnever by done. by rewrite Hreceipt.
  - intros n transaction Hn Hnull Hfound Hreceipt.
    rewrite (Hsettles n (Ok (Some transaction))) by done. by rewrite Hreceipt.
  - intros n e Hn Hnull Hfail.
    by rewrite (Hsettles n (Err e)).
Qed.

(** A number with at most [DECIMAL_PLACES] decimals is not changed by the
    rounding of a division. *)
Lemma round_half_up_exact q c :
  0 < c → 10 ^ BigNumber.DECIMAL_PLACES = Z.pos (Qden q) * c →
  (BigNumber.round_half_up q == q)%Q.
Proof.
  destruct q as [n d]. unfold BigNumber.round_half_up, Qeq. cbn [Qnum Qden].
  intros Hc Hscale. rewrite Hscale.
  assert ((2 * Z.abs n * (Z.pos d * c) + Z.pos d) / (2 * Z.pos d) = Z.abs n * c)
    as ->.
  { replace (2 * Z.abs n * (Z.pos d * c) + Z.pos d)
      with (Z.abs n * c * (2 * Z.pos d) + Z.pos d) by lia.
    rewrite Z.div_add_l by lia. rewrite Z.div_small by lia. lia. }
  rewrite Z2Pos.id by lia.
  assert (Z.sgn n * Z.abs n = n) as Hn by lia.
  transitivity (Z.sgn n * Z.abs n * (Z.pos d * c)); [ring|by rewrite Hn].
Qed.

(** X15.  The gas price in ETH is the gas price in wei divided by 10^18
    without any loss to the rounding of the division, and the gas fee is
    exactly gas price x gas limit x ether price / 10^18. *)
Theorem getGasFee_exact eth gasPrice gasLimit etherPrice :
  eth_getGasPrice eth = Ok gasPrice →
  (∃ inETH,
     getGasPriceInETH eth = Ok (BigNumber.Finite inETH)
     ∧ (inETH == inject_Z gasPrice / inject_Z (10 ^ 18))%Q)
  ∧ ∃ fee,
      getGasFee eth (BigNumber.Finite gasLimit) (BigNumber.Finite etherPrice)
      = Ok (BigNumber.Finite fee)
      ∧ (fee == inject_Z gasPrice * gasLimit * etherPrice / inject_Z (10 ^ 18))%Q.
Proof.
  intros Hprice.
  assert (BigNumber.dividedBy (BigNumber.ofZ gasPrice) (BigNumber.ofZ (10 ^ 18))
          = BigNumber.Finite
              (Qred (BigNumber.round_half_up
                       (inject_Z gasPrice / inject_Z (10 ^ 18))))) as Hdiv
    by reflexivity.
  assert (BigNumber.round_half_up (inject_Z gasPrice / inject_Z (10 ^ 18))
          == inject_Z gasPrice / inject_Z (10 ^ 18))%Q as Hexact.
  { apply (round_half_up_exact _ 100); [lia|]. by vm_compute. }
  unfold getGasFee, getGasPriceInETH. rewrite Hprice, Hdiv. split.
  - eexists. split; [done|]. by rewrite Qred_correct.
  - eexists. split; [done|]. rewrite !Qred_correct, Hexact.
    unfold Qdiv. ring.
Qed.

End TransactionsAndGas.

Lemma getTransactionByHash_gives_up_witness :
  Web3Public.getTransactionByHash Examples.ethNeverKnowing "0xabc" None (Some 3)
    (Some 100) 0
  = {| Web3Public.lookups := 10;
       Web3Public.waits := [100; 500; 500; 500; 500; 500; 500; 500; 500; 500];
       Web3Public.outcome := Ok None |}.
Proof.
  refine (proj2 (getTransactionByHash_gives_up Examples.ethNeverKnowing "0xabc"
                   None (Some 3) (Some 100) 0) _ _).
  - by vm_compute.
  - reflexivity.
Defined.

Lemma getTransactionByHash_settles_witness :
  Web3Public.getTransactionByHash (Examples.ethKnowingAfter 3) "0xabc" None
    (Some 2) (Some 100) 0
  = {| Web3Public.lookups := 4;
       Web3Public.waits := [100; 500; 500];
       Web3Public.outcome :=
         Ok (Some {| Web3Public.tx_hash := "0xabc";
                     Web3Public.gasPrice := 30000000000 |}) |}.
Proof.
  refine (getTransactionByHash_settles (Examples.ethKnowingAfter 3) "0xabc" None
            (Some 2) (Some 100) 0 3 _ _ _ _ eq_refl _).
  - by vm_compute.
  - simpl. lia.
  - intros j Hj. simpl.
    by rewrite (proj2 (Nat.ltb_lt j 3) Hj).
  - discriminate.
Defined.

Lemma getTransactionGasFee_outcomes_witness :
  Web3Public.getTransactionGasFee (Examples.ethKnowingAfter 3) "0xabc"
  = Ok (Some (BigNumber.Finite (inject_Z 630000000000000)))
  ∧ Web3Public.getTransactionGasFee (Examples.ethKnowingAfter 10) "0xabc"
    = Ok None.
Proof.
  split.
  - refine (proj1 (getTransactionGasFee_outcomes (Examples.ethKnowingAfter 3)
                     "0xabc")
              3%nat _ _ _ _ eq_refl eq_refl).
    + lia.
    + intros j Hj. simpl. by rewrite (proj2 (Nat.ltb_lt j 3) Hj).
  - refine (proj1 (proj2 (getTransactionGasFee_outcomes
                            (Examples.ethKnowingAfter 10) "0xabc"))
              _ _ eq_refl).
    intros j Hj. simpl. rewrite (proj2 (Nat.ltb_lt j 10)); [done|lia].
Defined.

Lemma getGasFee_exact_witness :
  ∃ fee,
    Web3Public.getGasFee (Examples.ethKnowingAfter 0) (BigNumber.Finite 21000)
      (BigNumber.Finite 2000)
    = Ok (BigNumber.Finite fee)
    ∧ (fee == inject_Z 30000000000 * 21000 * 2000 / inject_Z (10 ^ 18))%Q.
Proof.
  exact (proj2 (getGasFee_exact (Examples.ethKnowingAfter 0) 30000000000 21000
                  2000 eq_refl)).
Defined.

(** ** web3BatchRequest *)
Section Web3Batch.
Import Web3Public.

Lemma resolvedValues_Some {A} (promises : list (Result A)) values :
  JS.resolvedValues promises = Some values ↔ promises = Ok <$> values.
Proof.
  revert values. induction promises as [|[v|e] promises IH]; intros values; simpl.
  - split; [by intros [= <-]|]. by destruct values.
  - destruct (JS.resolvedValues promises) as [vs|] eqn:Hvs; simpl.
    + split.
      * intros [= <-]. simpl. f_equal. by apply IH.
      * destruct values as [|v' values]; [done|]. intros [= -> Hrest].
        f_equal. f_equal. apply IH in Hrest. congruence.
    + split; [done|]. destruct values as [|v' values]; [done|].
      intros [= -> Hrest]. apply IH in Hrest. done.
  - split; [done|]. by destruct values.
Qed.

Lemma resolvedValues_None {A} (promises : list (Result A)) :
  JS.resolvedValues promises = None →
  ∃ e, e ∈ omap JS.rejectionOf promises.
Proof.
  induction promises as [|[v|e] promises IH]; simpl; [done| |].
  - destruct (JS.resolvedValues promises); [done|]. intros _. by apply IH.
  - intros _. exists e. left.
Qed.

Lemma Promise_all_Ok {A} settleOrder (promises : list (Result A)) values :
  JS.Promise_all settleOrder promises = Ok values ↔ promises = Ok <$> values.
Proof.
  unfold JS.Promise_all. rewrite <- resolvedValues_Some.
  destruct (JS.resolvedValues promises) as [vs|] eqn:Hvs.
  { split; congruence. }
  destruct (resolvedValues_None promises Hvs) as [e He].
  destruct (omap _ settleOrder ++ omap JS.rejectionOf promises) as [|e' l] eqn:Hl.
  - assert (e ∈ @nil JsError) as Hnil.
    { rewrite <- Hl. apply elem_of_app. by right. }
    by apply elem_of_nil in Hnil.
  - done.
Qed.

Lemma rejectionOf_Some {A} (promise : Result A) e :
  JS.rejectionOf promise = Some e ↔ promise = Err e.
Proof. destruct promise; simpl; split; congruence. Qed.

Lemma Promise_all_Err {A} settleOrder (promises : list (Result A)) e :
  JS.Promise_all settleOrder promises = Err e →
  ∃ i, promises !! i = Some (Err e).
Proof.
  unfold JS.Promise_all. destruct (JS.resolvedValues promises); [done|].
  destruct (omap _ settleOrder ++ omap JS.rejectionOf promises) as [|e' l] eqn:Hl;
    [done|].
  intros [= ->].
  assert (e ∈ omap (λ i, promises !! i ≫= JS.rejectionOf) settleOrder
              ++ omap JS.rejectionOf promises) as Hin by (rewrite Hl; left).
  apply elem_of_app in Hin as [Hin|Hin].
  - apply list_elem_of_omap in Hin as (i & _ & Hi).
    exists i. destruct (promises !! i) as [p|]; [|done]. simpl in Hi.
    by apply rejectionOf_Some in Hi as ->.
  - apply list_elem_of_omap in Hin as (p & Hp & He).
    apply rejectionOf_Some in He as ->. by apply list_elem_of_lookup.
Qed.

(** The rejection of Promise.all is that of the promise that rejects
    first in the order of settlement. *)
Lemma Promise_all_first_rejection {A} (promises : list (Result A)) before i after e :
  (∀ j, j ∈ before → ∀ e', promises !! j ≠ Some (Err e')) →
  promises !! i = Some (Err e) →
  JS.Promise_all (before ++ i :: after) promises = Err e.
Proof.
  intros Hbefore Hi. unfold JS.Promise_all.
  destruct (JS.resolvedValues promises) as [vs|] eqn:Hvs.
  { apply resolvedValues_Some in Hvs. rewrite Hvs, list_lookup_fmap in Hi.
    by destruct (vs !! i). }
  rewrite omap_app.
  assert (omap (λ j, promises !! j ≫= JS.rejectionOf) before = []) as ->.
  { clear -Hbefore. induction before as [|j before IH]; simpl; [done|].
    destruct (promises !! j) as [[v|e']|] eqn:Hj; simpl.
    - apply IH. intros j' Hj'. apply Hbefore. by right.
    - destruct (Hbefore j ltac:(left) e' Hj).
    - apply IH. intros j' Hj'. apply Hbefore. by right. }
  simpl. by rewrite Hi.
Qed.

(** X16.  web3BatchRequest resolves exactly when every call of the batch
    is answered without error, with the results of the calls in the order of
    the calls, call [i] having been given [callsParams[i]] (the empty object
    when there is none); a single failing call makes the whole batch reject,
    the results of the other calls being lost, and the batch rejects with
    the error of the call whose failure arrives first. *)
Theorem web3BatchRequest_all_or_nothing {T} settleOrder
    (calls : list (CallParams → Result T)) (callsParams : list CallParams) :
  (∀ results,
     web3BatchRequest settleOrder calls callsParams = Ok results
     ↔ length results = length calls
       ∧ ∀ (i : nat) call,
           calls !! i = Some call →
           ∃ v, results !! i = Some v
                ∧ call (default [] (callsParams !! i)) = Ok v)
  ∧ (∀ (i : nat) call e,
       calls !! i = Some call →
       call (default [] (callsParams !! i)) = Err e →
       ∃ (i' : nat) call' e',
         web3BatchRequest settleOrder calls callsParams = Err e'
         ∧ calls !! i' = Some call'
         ∧ call' (default [] (callsParams !! i')) = Err e')
  ∧ (∀ before (i : nat) after call e,
       settleOrder = before ++ i :: after →
       (∀ (j : nat) call' e',
          j ∈ before → calls !! j = Some call' →
          call' (default [] (callsParams !! j)) ≠ Err e') →
       calls !! i = Some call →
       call (default [] (callsParams !! i)) = Err e →
       web3BatchRequest settleOrder calls callsParams = Err e).
Proof.
  unfold web3BatchRequest, CallParams in *.
  set (promises := imap (λ index call, call (default [] (callsParams !! index)))
                        calls).
  assert (∀ (i : nat) call, calls !! i = Some call →
            promises !! i = Some (call (default [] (callsParams !! i)))) as Hlk.
  { intros i call Hi. unfold promises. by rewrite list_lookup_imap, Hi. }
  assert (length promises = length calls) as Hlen by apply length_imap.
  split; [|split].
  - intros results. rewrite Promise_all_Ok. split.
    + intros Heq. split.
      { by rewrite <- Hlen, Heq, length_fmap. }
      intros i call Hi. specialize (Hlk i call Hi).
      rewrite Heq, list_lookup_fmap in Hlk.
      destruct (results !! i) as [v|]; [|done]. exists v. split; [done|].
      by injection Hlk.
    + intros [Hl Hall]. apply list_eq. intros i. rewrite list_lookup_fmap.
      destruct (calls !! i) as [call|] eqn:Hi.
      * destruct (Hall i call Hi) as (v & Hv & Hcall).
        by rewrite (Hlk i call Hi), Hv, Hcall.
      * apply lookup_ge_None in Hi.
        rewrite (proj2 (lookup_ge_None promises i)) by lia.
        by rewrite (proj2 (lookup_ge_None results i)) by lia.
  - intros i call e Hi Hcall.
    destruct (JS.Promise_all settleOrder promises) as [results|e'] eqn:Hall.
    + apply Promise_all_Ok in Hall. specialize (Hlk i call Hi).
      rewrite Hall, list_lookup_fmap, Hcall in Hlk.
      by destruct (results !! i).
    + destruct (Promise_all_Err _ _ _ Hall) as [i' Hi'].
      unfold promises in Hi'. rewrite list_lookup_imap in Hi'.
      destruct (calls !! i') as [call'|] eqn:Hc'; [|done].
      injection Hi' as Hi'. by exists i', call', e'.
  - intros before i after call e -> Hbefore Hi Hcall.
    apply Promise_all_first_rejection.
    + intros j Hj e' Hrej. unfold promises in Hrej.
      rewrite list_lookup_imap in Hrej.
      destruct (calls !! j) as [call'|] eqn:Hc'; [|done].
      injection Hrej as Hrej. by apply (Hbefore j call' e').
    + by rewrite (Hlk i call Hi), Hcall.
Qed.

End Web3Batch.

Lemma web3BatchRequest_all_or_nothing_witness :
  Web3Public.web3BatchRequest [0; 1; 2]%nat Examples.web3Calls
    [[("from", Examples.wallet)]]
  = Err (LibraryError "execution reverted")
  ∧ Web3Public.web3BatchRequest [2; 0; 1]%nat Examples.web3Calls
      [[("from", Examples.wallet)]]
    = Err (NetworkError "socket hang up")
  ∧ Web3Public.web3BatchRequest [0]%nat (take 1 Examples.web3Calls)
      [[("from", Examples.wallet)]]
    = Ok [Examples.wallet].
Proof.
  split; [|split].
  - refine (proj2 (proj2 (web3BatchRequest_all_or_nothing [0; 1; 2]%nat
                            Examples.web3Calls [[("from", Examples.wallet)]]))
              [0%nat] 1%nat [2%nat] _ _ eq_refl _ eq_refl eq_refl).
    intros j call' e' Hj Hcall.
    apply list_elem_of_singleton in Hj as ->. injection Hcall as <-. done.
  - refine (proj2 (proj2 (web3BatchRequest_all_or_nothing [2; 0; 1]%nat
                            Examples.web3Calls [[("from", Examples.wallet)]]))
              [] 2%nat [0; 1]%nat _ _ eq_refl _ eq_refl eq_refl).
    intros j call' e' Hj. by apply elem_of_nil in Hj.
  - apply (proj1 (web3BatchRequest_all_or_nothing [0]%nat
                    (take 1 Examples.web3Calls) [[("from", Examples.wallet)]])).
    split; [done|]. intros [|i] call Hcall; [|done].
    injection Hcall as <-. by exists Examples.wallet.
Defined.

(** ** getCrossChainContract *)
Section CrossChainContractsStore.
Import CrossChainContracts.

Lemma getCrossChainContract_stored store blockchain :
  crossChainContracts (getCrossChainContract store blockchain).1 blockchain
  = Some (getCrossChainContract store blockchain).2.
Proof.
  unfold getCrossChainContract.
  destruct (crossChainContracts store blockchain) eqn:Hstored; simpl; [done|].
  by rewrite decide_True.
Qed.

Lemma getCrossChainContract_keeps store blockchain b c :
  crossChainContracts store b = Some c →
  crossChainContracts (getCrossChainContract store blockchain).1 b = Some c.
Proof.
  intros Hb. unfold getCrossChainContract.
  destruct (crossChainContracts store blockchain) eqn:Hstored; simpl; [done|].
  destruct (decide (b = blockchain)) as [->|]; congruence.
Qed.

Lemma made_objectIds n (l : list ProviderData) o :
  o ∈ (n + length l)%nat
      :: ((λ p, providerId (provider p))
            <$> imap (λ index providerData,
                        {| provider := {| instanceOf := ProviderClass providerData;
                                          providerId := n + index |};
                           cp_methodSuffix := methodSuffix providerData |}) l) →
  (n ≤ o < S (n + length l))%nat.
Proof.
  intros [->|Ho]%elem_of_cons; [lia|].
  apply list_elem_of_fmap in Ho as (p & -> & Hp).
  apply list_elem_of_lookup in Hp as [i Hi]. rewrite list_lookup_imap in Hi.
  destruct (l !! i) as [x|] eqn:Hx; [|done]. injection Hi as <-. simpl.
  apply lookup_lt_Some in Hx. lia.
Qed.

Lemma getCrossChainContract_invariant store blockchain :
  storeInvariant store →
  storeInvariant (getCrossChainContract store blockchain).1.
Proof.
  intros Hinv. unfold getCrossChainContract.
  destruct (crossChainContracts store blockchain) eqn:Hstored; simpl; [done|].
  destruct Hinv as [Hb Ha Hc Hs Ho Hap].
  split; simpl.
  - intros b c. destruct (decide (b = blockchain)) as [->|]; [|by apply Hb].
    by intros [= <-].
  - intros b c. destruct (decide (b = blockchain)) as [->|]; [|by apply Ha].
    by intros [= <-].
  - intros b c. destruct (decide (b = blockchain)) as [->|]; [|by apply Hc].
    intros [= <-]. simpl. rewrite fmap_imap. apply list_eq. intros i.
    by rewrite list_lookup_imap, list_lookup_fmap.
  - intros b c. destruct (decide (b = blockchain)) as [->|]; [|by apply Hs].
    intros [= <-]. simpl. rewrite fmap_imap. apply list_eq. intros i.
    by rewrite list_lookup_imap, list_lookup_fmap.
  - intros b c o. destruct (decide (b = blockchain)) as [->|].
    + intros [= <-] Hin. unfold objectIds in Hin. cbn in Hin.
      rewrite length_imap in Hin. apply made_objectIds in Hin.
      rewrite length_imap. lia.
    + intros Hc' Hin. specialize (Ho b c o Hc' Hin). lia.
  - intros b b' c c' o Hne.
    destruct (decide (b = blockchain)) as [->|],
             (decide (b' = blockchain)) as [->|]; try done.
    + intros [= <-] Hc' Hin Hin'. unfold objectIds in Hin. cbn in Hin.
      rewrite length_imap in Hin. apply made_objectIds in Hin.
      specialize (Ho b' c' o Hc' Hin'). lia.
    + intros Hc' [= <-] Hin Hin'. unfold objectIds in Hin'. cbn in Hin'.
      rewrite length_imap in Hin'. apply made_objectIds in Hin'.
      specialize (Ho b c o Hc' Hin). lia.
    + by apply Hap.
Qed.

Lemma initialStore_invariant : storeInvariant initialStore.
Proof. by split. Qed.

Lemma successiveCalls_cons store blockchain rest :
  successiveCalls store (blockchain :: rest)
  = ((successiveCalls (getCrossChainContract store blockchain).1 rest).1,
     (getCrossChainContract store blockchain).2
     :: (successiveCalls (getCrossChainContract store blockchain).1 rest).2).
Proof.
  simpl. destruct (getCrossChainContract store blockchain) as [store' contract].
  simpl. by destruct (successiveCalls store' rest).
Qed.

Lemma successiveCalls_invariant blockchains : ∀ store,
  storeInvariant store → storeInvariant (successiveCalls store blockchains).1.
Proof.
  induction blockchains as [|b rest IH]; intros store Hinv; [done|].
  rewrite successiveCalls_cons. simpl.
  by apply IH, getCrossChainContract_invariant.
Qed.

Lemma successiveCalls_keeps blockchains : ∀ store b c,
  crossChainContracts store b = Some c →
  crossChainContracts (successiveCalls store blockchains).1 b = Some c.
Proof.
  induction blockchains as [|b' rest IH]; intros store b c Hb; [done|].
  rewrite successiveCalls_cons. simpl.
  by apply IH, getCrossChainContract_keeps.
Qed.

(** What a call returns is what the store holds from then on. *)
Lemma successiveCalls_stored blockchains : ∀ store (i : nat) b c,
  blockchains !! i = Some b →
  (successiveCalls store blockchains).2 !! i = Some c →
  crossChainContracts (successiveCalls store blockchains).1 b = Some c.
Proof.
  induction blockchains as [|b' rest IH]; intros store i b c Hb Hc; [done|].
  rewrite successiveCalls_cons in Hc |- *. simpl in *.
  destruct i as [|i]; simpl in *.
  - injection Hb as ->. injection Hc as <-.
    apply successiveCalls_keeps, getCrossChainContract_stored.
  - by apply (IH _ i).
Qed.

Lemma successiveCalls_length blockchains : ∀ store,
  length (successiveCalls store blockchains).2 = length blockchains.
Proof.
  induction blockchains as [|b rest IH]; intros store; [done|].
  rewrite successiveCalls_cons. simpl. by rewrite IH.
Qed.

(** X17.  Whatever calls of getCrossChainContract follow the loading of the
    module, every call returns a contract data of the blockchain asked for,
    with the address, the provider classes and the method suffixes of the
    table; two calls for one blockchain return the very same object, and the
    objects returned for two different blockchains share nothing: neither
    the contract data nor any provider. *)
Theorem getCrossChainContract_memoised blockchains (i j : nat) b b' c c' :
  blockchains !! i = Some b →
  blockchains !! j = Some b' →
  (successiveCalls initialStore blockchains).2 !! i = Some c →
  (successiveCalls initialStore blockchains).2 !! j = Some c' →
  length (successiveCalls initialStore blockchains).2 = length blockchains
  ∧ cd_blockchain c = b
  ∧ cd_address c = address (crossChainContractsData b)
  ∧ (λ p, instanceOf (provider p)) <$> cd_providersData c
    = ProviderClass <$> providersData (crossChainContractsData b)
  ∧ cp_methodSuffix <$> cd_providersData c
    = methodSuffix <$> providersData (crossChainContractsData b)
  ∧ (b = b' → c = c')
  ∧ (b ≠ b' →
     ∀ o, o ∈ contractId c :: ((λ p, providerId (provider p)) <$> cd_providersData c) →
          o ∉ contractId c'
              :: ((λ p, providerId (provider p)) <$> cd_providersData c')).
Proof.
  intros Hb Hb' Hc Hc'.
  pose proof (successiveCalls_invariant blockchains initialStore
                initialStore_invariant) as [Hbl Ha Hcl Hs Ho Hap].
  pose proof (successiveCalls_stored blockchains initialStore i b c Hb Hc) as Hst.
  pose proof (successiveCalls_stored blockchains initialStore j b' c' Hb' Hc')
    as Hst'.
  split; [apply successiveCalls_length|].
  split; [by apply Hbl|]. split; [by apply Ha|]. split; [by apply Hcl|].
  split; [by apply Hs|]. split.
  - intros <-. congruence.
  - intros Hne o Hin. by apply (Hap b b' c c' o).
Qed.

End CrossChainContractsStore.

Lemma getCrossChainContract_memoised_witness :
  let blockchains :=
    [CrossChainContracts.AVALANCHE; CrossChainContracts.ETHEREUM;
     CrossChainContracts.AVALANCHE] in
  let contracts :=
    (CrossChainContracts.successiveCalls CrossChainContracts.initialStore
       blockchains).2 in
  ∃ c,
    contracts !! 0%nat = Some c
    ∧ contracts !! 2%nat = Some c
    ∧ CrossChainContracts.cd_address c
      = "0x3df5f6165fe8429744F9488a9C18259E9a93B4C0"
    ∧ (λ p, CrossChainContracts.instanceOf (CrossChainContracts.provider p))
        <$> CrossChainContracts.cd_providersData c
      = [CrossChainContracts.PangolinProvider; CrossChainContracts.JoeProvider].
Proof.
  intros blockchains contracts.
  destruct (contracts !! 0%nat) as [c|] eqn:Hc; [|by vm_compute in Hc].
  destruct (contracts !! 2%nat) as [c'|] eqn:Hc'; [|by vm_compute in Hc'].
  destruct (getCrossChainContract_memoised blockchains 0 2
              CrossChainContracts.AVALANCHE CrossChainContracts.AVALANCHE c c'
              eq_refl eq_refl Hc Hc') as (_ & _ & Ha & Hcl & _ & Hsame & _).
  exists c. split; [done|]. split; [by rewrite (Hsame eq_refl)|].
  split; [exact Ha|exact Hcl].
Defined.

(** ** DebridgeCrossChainTradeProvider.calculate *)
Section Debridge.
Import CrossChainManager.
Import DebridgeCrossChainTradeProvider.

(** What calculate has done and got when it resolves with a trade. *)
Lemma calculate_trade env from toToken options wrappedTrade t :
  (calculate env from toToken options).2 = Some wrappedTrade →
  trade wrappedTrade = Some t →
  error wrappedTrade = None
  ∧ DebridgeCrossChainTradeProvider.from t = from
  ∧ fee t = BigNumber.minus (tokenAmount from)
                            (fromAmountWithoutFee (tokenAmount from))
  ∧ ∃ fromAddress response,
      fromAddressOf env options = Some fromAddress
      ∧ fromAddress ≠ ""
      ∧ (calculate env from toToken options).1
        = [requestParamsOf env from toToken options fromAddress]
      ∧ httpClient_get env apiEndpoint
          (requestParamsOf env from toToken options fromAddress)
        = Ok response
      ∧ transactionRequest t = tx response.
Proof.
  unfold calculate, tryCalculate.
  destruct (negb (isSupportedBlockchain env (blockchain (token from)))
            || negb (isSupportedBlockchain env (blockchain toToken))); [done|].
  destruct (fromAddressOf env options) as [fromAddress|] eqn:Haddr;
    [|by intros [= <-]].
  destruct (String.eqb_spec fromAddress "") as [->|Hne]; [by intros [= <-]|].
  destruct (httpClient_get env apiEndpoint _) as [response|e] eqn:Hget;
    [|by intros [= <-]].
  cbv zeta.
  destruct (if String.eqb (gasCalculation options) "enabled" then _ else _)
    as [gas|e]; [|by intros [= <-]].
  intros [= <-] [= <-]. simpl. repeat split. by exists fromAddress, response.
Qed.

(** X18.  calculate resolves with null exactly when one of the two
    blockchains is not supported, and then sends no request.  Otherwise it
    resolves with an answer that holds either a trade or an error, never
    both and never neither: it sends no request and answers with the error
    of the empty address when neither the options nor the wallet give a
    sender, it sends one request otherwise, and it answers with a trade
    exactly when that request and, if gas calculation is enabled, the gas
    data succeed; a failure of either is answered as an error, not thrown. *)
Theorem calculate_outcomes env from toToken options :
  ((calculate env from toToken options).2 = None
   ↔ isSupportedBlockchain env (blockchain (token from)) = false
     ∨ isSupportedBlockchain env (blockchain toToken) = false)
  ∧ ((calculate env from toToken options).2 = None →
     (calculate env from toToken options).1 = [])
  ∧ (∀ wrappedTrade,
       (calculate env from toToken options).2 = Some wrappedTrade →
       (is_Some (trade wrappedTrade) ↔ error wrappedTrade = None)
       ∧ ((fromAddressOf env options = None ∨ fromAddressOf env options = Some "") →
          (calculate env from toToken options).1 = []
          ∧ wrappedTrade
            = {| trade := None;
                 error :=
                   Some (parseError env
                           (RubicSdkError
                              "From address or wallet address must not be empty in Symbiosis")) |})
       ∧ (∀ fromAddress,
            fromAddressOf env options = Some fromAddress → fromAddress ≠ "" →
            (calculate env from toToken options).1
            = [requestParamsOf env from toToken options fromAddress]
            ∧ (∀ e,
                 httpClient_get env apiEndpoint
                   (requestParamsOf env from toToken options fromAddress) = Err e →
                 wrappedTrade
                 = {| trade := None; error := Some (parseError env e) |})
            ∧ (∀ response,
                 httpClient_get env apiEndpoint
                   (requestParamsOf env from toToken options fromAddress)
                 = Ok response →
                 gasCalculation options ≠ "enabled" →
                 is_Some (trade wrappedTrade)))).
Proof.
  unfold calculate.
  destruct (isSupportedBlockchain env (blockchain (token from))) eqn:Hfrom;
    [|simpl; repeat split; auto; done].
  destruct (isSupportedBlockchain env (blockchain toToken)) eqn:Hto;
    [|simpl; repeat split; auto; done].
  simpl. unfold tryCalculate.
  destruct (fromAddressOf env options) as [fromAddress|] eqn:Haddr.
  2: { split; [split; [done|by intros [|]]|]. split; [done|].
       intros w [= <-]. simpl. split; [split; [by intros [? ?]|done]|].
       split; [done|]. done. }
  destruct (String.eqb_spec fromAddress "") as [->|Hne].
  { split; [split; [done|by intros [|]]|]. split; [done|].
    intros w [= <-]. simpl. split; [split; [by intros [? ?]|done]|].
    split; [done|]. by intros a [= <-]. }
  destruct (httpClient_get env apiEndpoint _) as [response|e] eqn:Hget.
  2: { split; [split; [done|by intros [|]]|]. split; [done|].
       intros w [= <-]. simpl. split; [split; [by intros [? ?]|done]|].
       split; [by intros [|[= ->]]|].
       intros a [= <-] _. split; [done|]. split.
       - intros e' He'. rewrite Hget in He'. by injection He' as <-.
       - intros r Hr. rewrite Hget in Hr. done. }
  cbv zeta.
  destruct (String.eqb_spec (gasCalculation options) "enabled") as [Hgas|Hgas].
  - destruct (getGasData env from _ (tx response)) as [gas|e].
    + split; [split; [done|by intros [|]]|]. split; [done|].
      intros w [= <-]. simpl. split; [split; [done|by eexists]|].
      split; [by intros [|[= ->]]|].
      intros a [= <-] _. split; [done|]. split.
      * intros e' He'. rewrite Hget in He'. done.
      * intros r _ Hno. done.
    + split; [split; [done|by intros [|]]|]. split; [done|].
      intros w [= <-]. simpl. split; [split; [by intros [? ?]|done]|].
      split; [by intros [|[= ->]]|].
      intros a [= <-] _. split; [done|]. split.
      * intros e' He'. rewrite Hget in He'. done.
      * intros r _ Hno. done.
  - split; [split; [done|by intros [|]]|]. split; [done|].
    intros w [= <-]. simpl. split; [split; [done|by eexists]|].
    split; [by intros [|[= ->]]|].
    intros a [= <-] _. split; [done|]. split.
    + intros e' He'. rewrite Hget in He'. done.
    + intros r _ _. by eexists.
Qed.

Lemma Qnum_nonneg x : 0 ≤ Qnum x ↔ (0 <= x)%Q.
Proof. unfold Qle. simpl. lia. Qed.

(** Rounding does not depend on the fraction that stands for a number. *)
Lemma round_half_up_comp x y :
  (0 <= x)%Q → (x == y)%Q →
  (BigNumber.round_half_up x == BigNumber.round_half_up y)%Q.
Proof.
  intros Hx Hxy. apply Qle_antisym; apply round_half_up_monotone.
  - by apply Qnum_nonneg.
  - rewrite Hxy. apply Qle_refl.
  - apply Qnum_nonneg. by rewrite <- Hxy.
  - rewrite Hxy. apply Qle_refl.
Qed.

(** X19.  The fee of a Debridge trade and the amount sent to the API add up
    to the amount of the input token.  For an amount that is not negative
    and has at most 20 decimals the fee is not negative, and for one with at
    most 14 decimals no rounding takes place: the amount sent is 99.9985 %
    of the input amount and the fee 0.0015 % of it. *)
Theorem calculate_fee env from toToken options wrappedTrade t amount (n : Z) :
  (calculate env from toToken options).2 = Some wrappedTrade →
  trade wrappedTrade = Some t →
  tokenAmount from = BigNumber.Finite amount →
  0 ≤ n →
  ∃ withoutFee f,
    fromAmountWithoutFee (tokenAmount from) = BigNumber.Finite withoutFee
    ∧ fee t = BigNumber.Finite f
    ∧ (f + withoutFee == amount)%Q
    ∧ ((amount == inject_Z n / inject_Z (10 ^ 20))%Q → (0 <= f)%Q)
    ∧ ((amount == inject_Z n / inject_Z (10 ^ 14))%Q →
       (withoutFee == amount * (999985 # 1000000))%Q
       ∧ (f == amount * (15 # 1000000))%Q).
Proof.
  intros Hcalc Htrade Hamount Hn.
  destruct (calculate_trade env from toToken options wrappedTrade t Hcalc Htrade)
    as (_ & _ & Hfee & _).
  rewrite Hfee, Hamount. clear Hcalc Htrade Hfee Hamount.
  set (q := (Qred (amount * (999985 # 10000)) / inject_Z 100)%Q).
  assert (fromAmountWithoutFee (BigNumber.Finite amount)
          = BigNumber.Finite (Qred (BigNumber.round_half_up q))) as ->
    by reflexivity.
  assert (q == amount * (999985 # 1000000))%Q as Hq.
  { unfold q. rewrite Qred_correct. unfold Qdiv.
    rewrite <- Qmult_assoc. apply Qmult_comp; [reflexivity|]. reflexivity. }
  eexists _, _. split; [done|]. split; [done|].
  split; [rewrite Qred_correct; ring|]. split.
  - intros Ha.
    assert (0 <= amount)%Q as Hpos.
    { rewrite Ha. unfold Qdiv. apply Qmult_le_0_compat; [|done].
      unfold Qle. simpl. lia. }
    assert (BigNumber.round_half_up amount == amount)%Q as Hexact.
    { etransitivity; [exact (round_half_up_comp amount _ Hpos Ha)|].
      etransitivity; [|symmetry; exact Ha].
      apply (round_half_up_exact _ 1); [lia|]. by vm_compute. }
    assert (BigNumber.round_half_up q <= amount)%Q as Hle.
    { apply Qle_trans with (BigNumber.round_half_up amount);
        [|rewrite Hexact; apply Qle_refl].
      apply round_half_up_monotone.
      - apply Qnum_nonneg. rewrite Hq. by apply Qmult_le_0_compat.
      - rewrite Hq. apply Qle_trans with (amount * 1)%Q;
          [|rewrite Qmult_1_r; apply Qle_refl].
        rewrite !(Qmult_comm amount). by apply Qmult_le_compat_r. }
    rewrite !Qred_correct. unfold Qminus.
    rewrite <- (Qplus_opp_r (BigNumber.round_half_up q)).
    by apply Qplus_le_l.
  - intros Ha.
    assert (0 <= amount)%Q as Hpos.
    { rewrite Ha. unfold Qdiv. apply Qmult_le_0_compat; [|done].
      unfold Qle. simpl. lia. }
    assert (BigNumber.round_half_up q == amount * (999985 # 1000000))%Q as Hw.
    { assert (q == inject_Z (n * 999985) / inject_Z (10 ^ 20))%Q as Hq'.
      { rewrite Hq, Ha.
        change (10 ^ 14) with 100000000000000.
        change (10 ^ 20) with 100000000000000000000.
        unfold Qeq, Qdiv, Qmult, Qinv, inject_Z. cbn [Qnum Qden]. lia. }
      assert (0 <= q)%Q as Hqpos by (rewrite Hq; by apply Qmult_le_0_compat).
      etransitivity; [exact (round_half_up_comp q _ Hqpos Hq')|].
      etransitivity; [apply (round_half_up_exact _ 1); [lia|by vm_compute]|].
      by rewrite <- Hq', Hq. }
    split; [by rewrite Qred_correct|].
    rewrite !Qred_correct, Hw. ring.
Qed.

End Debridge.

Lemma calculate_outcomes_witness :
  (DebridgeCrossChainTradeProvider.calculate Examples.debridgeEnv Examples.source
     {| CrossChainManager.address := Examples.DAI;
        CrossChainManager.blockchain := CrossChainManager.FANTOM;
        CrossChainManager.price := BigNumber.Finite 1 |}
     Examples.debridgeOptions).2 = None
  ∧ (DebridgeCrossChainTradeProvider.calculate Examples.debridgeEnv Examples.source
       {| CrossChainManager.address := Examples.DAI;
          CrossChainManager.blockchain := CrossChainManager.FANTOM;
          CrossChainManager.price := BigNumber.Finite 1 |}
       Examples.debridgeOptions).1 = [].
Proof.
  pose proof (calculate_outcomes Examples.debridgeEnv Examples.source
                {| CrossChainManager.address := Examples.DAI;
                   CrossChainManager.blockchain := CrossChainManager.FANTOM;
                   CrossChainManager.price := BigNumber.Finite 1 |}
                Examples.debridgeOptions) as (Hnull & Hnone & _).
  assert ((DebridgeCrossChainTradeProvider.calculate Examples.debridgeEnv
             Examples.source
             {| CrossChainManager.address := Examples.DAI;
                CrossChainManager.blockchain := CrossChainManager.FANTOM;
                CrossChainManager.price := BigNumber.Finite 1 |}
             Examples.debridgeOptions).2 = None) as H.
  { apply Hnull. right. reflexivity. }
  split; [exact H|exact (Hnone H)].
Defined.

Lemma calculate_fee_witness :
  ∃ wrappedTrade t f,
    (DebridgeCrossChainTradeProvider.calculate Examples.debridgeEnv Examples.source
       Examples.destination Examples.debridgeOptions).2 = Some wrappedTrade
    ∧ DebridgeCrossChainTradeProvider.trade wrappedTrade = Some t
    ∧ DebridgeCrossChainTradeProvider.fee t = BigNumber.Finite f
    ∧ (f == 15 # 10000)%Q.
Proof.
  destruct (DebridgeCrossChainTradeProvider.calculate Examples.debridgeEnv
              Examples.source Examples.destination Examples.debridgeOptions).2
    as [wrappedTrade|] eqn:Hcalc; [|by vm_compute in Hcalc].
  destruct (DebridgeCrossChainTradeProvider.trade wrappedTrade) as [t|] eqn:Htrade.
  2: { vm_compute in Hcalc. injection Hcalc as <-. discriminate Htrade. }
  destruct (calculate_fee Examples.debridgeEnv Examples.source Examples.destination
              Examples.debridgeOptions wrappedTrade t 100 (100 * 10 ^ 14)
              Hcalc Htrade eq_refl ltac:(lia))
    as (withoutFee & f & _ & Hfee & _ & _ & Hexact).
  exists wrappedTrade, t, f. split; [done|]. split; [done|]. split; [done|].
  destruct Hexact as [_ Hf]; [by vm_compute|].
  rewrite Hf. by vm_compute.
Defined.
